(** * Binary classification performance metrics: the [test.fit] method

    A shallow embedding of [src/binary.py].  The method [fit] of class [test]
    bins predicted probabilities with [pandas.qcut], aggregates the observed
    labels per bin and derives the Kolmogorov-Smirnov table.

    Modelling decisions.
    - [y_proba] and [y_true] are positional arrays (numpy arrays): lists.
      [fit_series] is the same method on two pandas Series, which are
      aligned on their index.
    - Predicted probabilities are finite numbers, taken as exact rationals
      ([Q]); the rounding of binary floating point is not modelled.
    - Integer columns are [Z].
    - Float columns that come out of a division ([odds], the rates,
      [abs_difference]) are values of [float]: an exact rational, an infinity
      or NaN, with the IEEE rules for division by zero and NaN propagation
      that numpy applies silently.
    - Exceptions are values of [exn]; [fit] returns [exn + test].
    - The pandas and numpy primitives that [fit] calls ([qcut], [groupby],
      [cumsum], [shift], [div], [max], the [DataFrame] constructor,
      [Series.apply]) are written out as functions of their own, after the
      library's behaviour. *)

From Stdlib Require Import List ZArith QArith Qround Qabs Qreduction Bool Arith Lia Lqa.
From Stdlib Require Import Sorted.
Import ListNotations.

(** ** Exceptions and float values *)

Inductive exn : Type :=
| ValueError   (* pandas: "All arrays must be of the same length" *)
| TypeError.   (* a Python call with an unexpected keyword argument *)

Inductive float : Type :=
| Fin (q : Q)
| PInf
| NInf
| NaN.

(** [Series.div] on two integer values: true division, IEEE results when the
    divisor is zero. *)
Definition div (a b : Z) : float :=
  if (b =? 0)%Z then
    if (a =? 0)%Z then NaN else if (0 <? a)%Z then PInf else NInf
  else Fin (Qred (inject_Z a / inject_Z b)).

Definition fsub (x y : float) : float :=
  match x, y with
  | NaN, _ | _, NaN => NaN
  | Fin a, Fin b => Fin (Qred (a - b))
  | Fin _, PInf => NInf
  | Fin _, NInf => PInf
  | PInf, PInf => NaN
  | PInf, _ => PInf
  | NInf, NInf => NaN
  | NInf, _ => NInf
  end.

Definition fabs (x : float) : float :=
  match x with
  | Fin a => Fin (Qabs a)
  | PInf | NInf => PInf
  | NaN => NaN
  end.

(** [x < y] on float values; false as soon as one side is NaN. *)
Definition fltb (x y : float) : bool :=
  match x, y with
  | NaN, _ | _, NaN => false
  | Fin a, Fin b => negb (Qle_bool b a)
  | NInf, NInf => false
  | NInf, _ => true
  | _, PInf => match x with PInf => false | _ => true end
  | _, _ => false
  end.

(** [Series.max()]: NaN entries are skipped; NaN when nothing is left. *)
Definition fmax2 (acc x : float) : float :=
  match acc, x with
  | NaN, _ => x
  | _, NaN => acc
  | _, _ => if fltb acc x then x else acc
  end.

Definition series_max (l : list float) : float := fold_left fmax2 l NaN.

(** ** Integer series *)

Definition sum (l : list Z) : Z := fold_right Z.add 0%Z l.

Fixpoint cumsum_from (acc : Z) (l : list Z) : list Z :=
  match l with
  | [] => []
  | x :: r => (acc + x)%Z :: cumsum_from (acc + x)%Z r
  end.

Definition cumsum (l : list Z) : list Z := cumsum_from 0%Z l.

(** [Series.shift(fill_value=0)]: one place down, the last entry falls off. *)
Definition shift (l : list Z) : list Z :=
  match l with
  | [] => []
  | _ :: _ => 0%Z :: removelast l
  end.

(** Element-wise operation on two series with the same index. *)
Definition map2 {A B C : Type} (f : A -> B -> C) (l1 : list A) (l2 : list B) : list C :=
  map (fun p => f (fst p) (snd p)) (combine l1 l2).

(** ** Quantile binning: [pandas.qcut(x, q, duplicates='drop')] *)

Record Interval : Type := mkInterval { left : Q; right : Q }.

(** Intervals are closed on the right. *)
Definition in_interval (v : Q) (i : Interval) : Prop := left i < v /\ v <= right i.

(** [np.linspace(0, 1, q + 1)]. *)
Definition linspace01 (q : nat) : list Q :=
  map (fun k => Z.of_nat k # Pos.of_nat q) (seq 0 (q + 1)%nat).

Fixpoint insert (v : Q) (l : list Q) : list Q :=
  match l with
  | [] => [v]
  | h :: t => if Qle_bool v h then v :: l else h :: insert v t
  end.

(** [np.sort]. *)
Fixpoint sort (l : list Q) : list Q :=
  match l with
  | [] => []
  | h :: t => insert h (sort t)
  end.

(** The score at fraction [at_] of the sorted [values], with linear
    interpolation between the two neighbours. *)
Definition get_score (values : list Q) (at_ : Q) : Q :=
  let idx := at_ * inject_Z (Z.of_nat (length values - 1)%nat) in
  let i := Z.to_nat (Qfloor idx) in
  let frac := idx - inject_Z (Qfloor idx) in
  if Qeq_bool frac 0 then nth i values 0
  else nth i values 0 + (nth (S i) values 0 - nth i values 0) * frac.

(** On an empty array pandas returns NaN for every quantile; here [nth]
    falls back to 0.  No observation is compared with these edges, and the
    number of bins is the same. *)
Definition quantile (x : list Q) (qs : list Q) : list Q :=
  let values := sort x in
  map (get_score values) qs.

(** [algos.unique]: the first occurrence of each value, in order. *)
Fixpoint unique (l : list Q) : list Q :=
  match l with
  | [] => []
  | v :: r => v :: filter (fun w => negb (Qeq_bool v w)) (unique r)
  end.

(** [bins.searchsorted(v, side='left')] on sorted [bins]: the index of the
    first edge that is not below [v], the number of edges when all are. *)
Fixpoint searchsorted (bins : list Q) (v : Q) : nat :=
  match bins with
  | [] => 0%nat
  | b :: r => if Qle_bool v b then 0%nat else S (searchsorted r v)
  end.

(** The edges after the [duplicates='drop'] step of [_bins_to_cuts]. *)
Definition drop_duplicates (bins : list Q) : list Q :=
  let unique_bins := unique bins in
  if (length unique_bins <? length bins)%nat && negb (length bins =? 2)%nat
  then unique_bins else bins.

(** The bin number of one value, [include_lowest=True]. *)
Definition bin_id (bins : list Q) (v : Q) : nat :=
  if Qeq_bool v (hd 0 bins) then 1%nat else searchsorted bins v.

(** The category code of one value: [None] is NaN (no category). *)
Definition code_of (bins : list Q) (v : Q) : option nat :=
  let id := bin_id bins v in
  if (id =? length bins)%nat || (id =? 0)%nat then None else Some (id - 1)%nat.

(** [IntervalIndex.from_breaks]. *)
Fixpoint from_breaks (breaks : list Q) : list Interval :=
  match breaks with
  | a :: ((b :: _) as r) => mkInterval a b :: from_breaks r
  | _ => []
  end.

(** [_format_labels] with [right=True], [include_lowest=True]: the lowest
    edge is moved down by [10 ** -precision], [precision = 3].  (pandas also
    rounds the edges shown to [precision] significant digits, raising the
    precision until distinct edges stay distinct; that rounding of the
    labels is not modelled.) *)
Definition breaks_of (bins : list Q) : list Q :=
  match bins with
  | [] => []
  | b :: r => (b - (1 # 1000)) :: r
  end.

Definition format_labels (bins : list Q) : list Interval :=
  from_breaks (breaks_of bins).

Definition qcut_bins (x : list Q) (q : nat) : list Q :=
  drop_duplicates (quantile x (linspace01 q)).

(** [qcut] returns the category code of every value and the categories. *)
Definition qcut (x : list Q) (q : nat) : list (option nat) * list Interval :=
  let bins := qcut_bins x q in
  (map (code_of bins) x, format_labels bins).

(** ** [groupby('range')['y_true'].agg(['size','sum'])]

    The grouping key is categorical: every category gets a row, also an
    empty one; rows whose key is NaN are left out. *)

Definition code_eqb (c : option nat) (k : nat) : bool :=
  match c with
  | Some j => (j =? k)%nat
  | None => false
  end.

Definition group_rows (codes : list (option nat)) (y : list Z) (k : nat) : list Z :=
  map snd (filter (fun cy => code_eqb (fst cy) k) (combine codes y)).

Definition group_size (codes : list (option nat)) (y : list Z) (k : nat) : Z :=
  Z.of_nat (length (group_rows codes y k)).

Definition group_sum (codes : list (option nat)) (y : list Z) (k : nat) : Z :=
  sum (group_rows codes y k).

(** ** The result table and the fitted object *)

Module Table.
Record t : Type := mk {
  bin : list Z;
  range : list Interval;
  size : list Z;
  class0 : list Z;
  class1 : list Z;
  odds : list float;
  class0_rate : list float;
  class1_rate : list float;
  remainder_total : list Z;
  remainder_class0 : list Z;
  remainder_class1 : list Z;
  cumulative_class0 : list Z;
  cumulative_class1 : list Z;
  abs_difference : list float
}.
End Table.

(** The attributes that [fit] sets on the object, once the table is
    complete. *)
Record test : Type := mkTest {
  obs : Z;
  class0 : Z;
  class1 : Z;
  ks : float;
  table : Table.t
}.

(** [t['range'].apply(lambda x: ..., axis=1)]: [Series.apply] hands its
    extra keyword arguments to the function, so the one-argument lambda is
    called with [axis=1] and Python raises [TypeError]; an empty series
    returns before any call.  The value of [apply] is not assigned. *)
Definition apply_round (range : list Interval) : exn + unit :=
  match range with
  | [] => inr tt
  | _ :: _ => inl TypeError
  end.

Definition remainder (col : list Z) : list Z :=
  map (fun c => (sum col - c)%Z) (cumsum (shift col)).

Definition build_table (codes : list (option nat)) (labels : list Interval)
    (y_true : list Z) (n0 n1 : Z) : Table.t :=
  let cats := seq 0 (length labels) in
  let size := map (group_size codes y_true) cats in
  let class1 := map (group_sum codes y_true) cats in
  let bin := map Z.of_nat (seq 1 (length labels)) in
  let class0 := map2 Z.sub size class1 in
  let odds := map2 div class0 class1 in
  let class0_rate := map2 div class0 size in
  let class1_rate := map2 div class1 size in
  let remainder_total := remainder size in
  let remainder_class0 := remainder class0 in
  let remainder_class1 := remainder class1 in
  let cumulative_class0 := cumsum class0 in
  let cumulative_class1 := cumsum class1 in
  let abs_difference :=
    map fabs (map2 fsub (map (fun c => div c n0) cumulative_class0)
                        (map (fun c => div c n1) cumulative_class1)) in
  Table.mk bin labels size class0 class1 odds class0_rate class1_rate
           remainder_total remainder_class0 remainder_class1
           cumulative_class0 cumulative_class1 abs_difference.

Definition fit (y_proba : list Q) (y_true : list Z) (bins : nat) (round_range : bool)
  : exn + test :=
  let n1 := sum y_true in
  let n0 := (Z.of_nat (length y_proba) - n1)%Z in
  (* pd.DataFrame({...}) *)
  if negb (length y_proba =? length y_true)%nat then inl ValueError else
  let (codes, labels) := qcut y_proba bins in
  let t := build_table codes labels y_true n0 n1 in
  match (if round_range then apply_round (Table.range t) else inr tt) with
  | inl e => inl e
  | inr _ =>
      inr (mkTest (n0 + n1)%Z n0 n1 (series_max (Table.abs_difference t)) t)
  end.

(** ** [fit] on two pandas Series

    [fit] above takes positional arrays (numpy arrays).  When [y_proba] and
    [y_true] are pandas Series with the default index [0 .. n-1], the
    [DataFrame] constructor compares no lengths: it aligns the two columns
    on the union of the indexes and fills the gaps with NaN.  The column of
    [qcut] carries the index of [y_proba] and is aligned in the same way,
    and [groupby] leaves out the rows whose [range] is NaN.  So the rows
    that are grouped are those of [y_proba]; a label beyond them is
    dropped, and a missing label is NaN, which [size] counts and [sum]
    skips: it is entered as 0.  [n1] is the sum of all of [y_true]. *)

Definition reindex (n : nat) (y : list Z) : list Z :=
  firstn n y ++ repeat 0%Z (n - length y).

Definition fit_series (y_proba : list Q) (y_true : list Z) (bins : nat)
    (round_range : bool) : exn + test :=
  let n1 := sum y_true in
  let n0 := (Z.of_nat (length y_proba) - n1)%Z in
  let (codes, labels) := qcut y_proba bins in
  let t := build_table codes labels (reindex (length y_proba) y_true) n0 n1 in
  match (if round_range then apply_round (Table.range t) else inr tt) with
  | inl e => inl e
  | inr _ =>
      inr (mkTest (n0 + n1)%Z n0 n1 (series_max (Table.abs_difference t)) t)
  end.

(** ** Definitions used in the statements and proofs *)

(** The table [fit] builds before the [round_range] step. *)
Definition fit_table (y_proba : list Q) (y_true : list Z) (bins : nat) : Table.t :=
  build_table (map (code_of (qcut_bins y_proba bins)) y_proba)
              (format_labels (qcut_bins y_proba bins)) y_true
              (Z.of_nat (length y_proba) - sum y_true)%Z (sum y_true).

Definition fit_value (y_proba : list Q) (y_true : list Z) (bins : nat) : test :=
  let n1 := sum y_true in
  let n0 := (Z.of_nat (length y_proba) - n1)%Z in
  let t := fit_table y_proba y_true bins in
  mkTest (n0 + n1)%Z n0 n1 (series_max (Table.abs_difference t)) t.

(** Running sums that leave the current entry out: what
    [shift(fill_value=0).cumsum()] computes. *)
Fixpoint prefix_from (acc : Z) (l : list Z) : list Z :=
  match l with
  | [] => []
  | x :: r => acc :: prefix_from (acc + x)%Z r
  end.

(** A column that never goes down from one bin to the next. *)
Inductive nondecreasing : list Z -> Prop :=
| nondec_nil : nondecreasing []
| nondec_one : forall x, nondecreasing [x]
| nondec_cons : forall x y r,
    (x <= y)%Z -> nondecreasing (y :: r) -> nondecreasing (x :: y :: r).

(** A code names one of the first [K] categories. *)
Definition code_in (K : nat) (c : option nat) : Prop :=
  match c with
  | Some j => (j < K)%nat
  | None => False
  end.

(** A label is 0 or 1. *)
Definition binary (v : Z) : Prop := v = 0%Z \/ v = 1%Z.

(** The probabilities take at least two different values. *)
Definition distinct_values (x : list Q) : Prop :=
  exists a b, In a x /\ In b x /\ ~ a == b.

(** A valid input: arrays of one length, probabilities in [0,1], labels 0
    or 1, both classes present. *)
Definition valid_input (y_proba : list Q) (y_true : list Z) : Prop :=
  length y_proba = length y_true
  /\ Forall (fun p => 0 <= p /\ p <= 1) y_proba
  /\ Forall binary y_true
  /\ In 0%Z y_true /\ In 1%Z y_true.

(** Order on finite float values; nothing is related to NaN or an
    infinity. *)
Definition fle (x y : float) : Prop :=
  match x, y with
  | Fin a, Fin b => a <= b
  | _, _ => False
  end.

(** A finite float value in the closed interval [0,1]. *)
Definition unit_float (d : float) : Prop :=
  match d with
  | Fin a => 0 <= a /\ a <= 1
  | _ => False
  end.

(** The number of rows of the table: one per category of [qcut]. *)
Definition n_bins (y_proba : list Q) (bins : nat) : nat :=
  length (format_labels (qcut_bins y_proba bins)).

(** The [size] and the [sum] that [groupby] computes for category [k]. *)
Definition bin_size (y_proba : list Q) (y_true : list Z) (bins k : nat) : Z :=
  group_size (map (code_of (qcut_bins y_proba bins)) y_proba) y_true k.

Definition bin_ones (y_proba : list Q) (y_true : list Z) (bins k : nat) : Z :=
  group_sum (map (code_of (qcut_bins y_proba bins)) y_proba) y_true k.

(** A column that never goes up from one bin to the next. *)
Inductive nonincreasing : list Z -> Prop :=
| noninc_nil : nonincreasing []
| noninc_one : forall x, nonincreasing [x]
| noninc_cons : forall x y r,
    (y <= x)%Z -> nonincreasing (y :: r) -> nonincreasing (x :: y :: r).

(** The labels with the two classes exchanged. *)
Definition flip_labels (y : list Z) : list Z := map (fun v => 1 - v)%Z y.


(** All columns of a table have [n] entries. *)
Definition rectangular (t : Table.t) (n : nat) : Prop :=
  length (Table.bin t) = n /\ length (Table.range t) = n
  /\ length (Table.size t) = n /\ length (Table.class0 t) = n
  /\ length (Table.class1 t) = n /\ length (Table.odds t) = n
  /\ length (Table.class0_rate t) = n /\ length (Table.class1_rate t) = n
  /\ length (Table.remainder_total t) = n
  /\ length (Table.remainder_class0 t) = n
  /\ length (Table.remainder_class1 t) = n
  /\ length (Table.cumulative_class0 t) = n
  /\ length (Table.cumulative_class1 t) = n
  /\ length (Table.abs_difference t) = n.

(** ** Concrete inputs *)

Definition perfect_proba : list Q := [1 # 10; 2 # 10; 8 # 10; 9 # 10].
Definition perfect_true : list Z := [0; 0; 1; 1]%Z.

(** * Proofs *)

(** ** What [fit] returns *)

Lemma fit_no_round (y_proba : list Q) (y_true : list Z) (bins : nat) :
  length y_proba = length y_true ->
  fit y_proba y_true bins false = inr (fit_value y_proba y_true bins).
Proof.
  intros Hlen. apply Nat.eqb_eq in Hlen.
  unfold fit, qcut. rewrite Hlen. reflexivity.
Qed.

Lemma fit_returns (y_proba : list Q) (y_true : list Z) (bins : nat) (rr : bool) (r : test) :
  fit y_proba y_true bins rr = inr r ->
  length y_proba = length y_true /\ r = fit_value y_proba y_true bins.
Proof.
  unfold fit, qcut.
  destruct (Nat.eqb_spec (length y_proba) (length y_true)) as [Hlen | Hlen];
    simpl; [ | discriminate ].
  intros H. split; [ exact Hlen | ].
  match type of H with
  | match ?c with _ => _ end = _ => destruct c; [ discriminate | ]
  end.
  injection H as <-. reflexivity.
Qed.

(** ** Integer series: sums, running sums, remainders *)

Section Series.

Lemma map2_length {A B C : Type} (f : A -> B -> C) (l1 : list A) (l2 : list B) :
  length l1 = length l2 -> length (map2 f l1 l2) = length l1.
Proof.
  intros H. unfold map2. rewrite length_map, length_combine, <- H.
  apply Nat.min_id.
Qed.

Lemma map2_cons {A B C : Type} (f : A -> B -> C) a b l1 l2 :
  map2 f (a :: l1) (b :: l2) = f a b :: map2 f l1 l2.
Proof. reflexivity. Qed.

Lemma sum_map2_sub (l1 l2 : list Z) :
  length l1 = length l2 ->
  sum (map2 Z.sub l1 l2) = (sum l1 - sum l2)%Z.
Proof.
  revert l2. induction l1 as [ | a l1 IH]; intros [ | b l2] Hlen;
    try discriminate; [ reflexivity | ].
  rewrite map2_cons. simpl. rewrite IH by (simpl in Hlen; lia). lia.
Qed.

Lemma cumsum_removelast (acc : Z) (l : list Z) :
  cumsum_from acc (removelast l) = removelast (cumsum_from acc l).
Proof.
  revert acc. induction l as [ | x [ | y r] IH]; intros acc; try reflexivity.
  change (removelast (x :: y :: r)) with (x :: removelast (y :: r)).
  simpl cumsum_from at 1. rewrite IH. reflexivity.
Qed.

Lemma prefix_from_cumsum (acc x : Z) (l : list Z) :
  prefix_from acc (x :: l) = acc :: removelast (cumsum_from acc (x :: l)).
Proof.
  revert acc x. induction l as [ | y r IH]; intros acc x; [ reflexivity | ].
  change (prefix_from acc (x :: y :: r))
    with (acc :: prefix_from (acc + x)%Z (y :: r)).
  rewrite IH. reflexivity.
Qed.

Lemma cumsum_shift (l : list Z) : cumsum (shift l) = prefix_from 0%Z l.
Proof.
  destruct l as [ | x r]; [ reflexivity | ].
  rewrite prefix_from_cumsum. unfold cumsum, shift.
  change (cumsum_from 0 (0%Z :: removelast (x :: r)))
    with (0%Z :: cumsum_from 0 (removelast (x :: r))).
  rewrite cumsum_removelast. reflexivity.
Qed.

Lemma prefix_from_length (acc : Z) (l : list Z) :
  length (prefix_from acc l) = length l.
Proof.
  revert acc. induction l as [ | x r IH]; intros acc; simpl; [ | rewrite IH ];
    reflexivity.
Qed.

Lemma prefix_from_sub (a b : Z) (l1 l2 : list Z) :
  length l1 = length l2 ->
  prefix_from (a - b)%Z (map2 Z.sub l1 l2)
  = map2 Z.sub (prefix_from a l1) (prefix_from b l2).
Proof.
  revert a b l2. induction l1 as [ | x l1 IH]; intros a b [ | y l2] Hlen;
    try discriminate; [ reflexivity | ].
  rewrite map2_cons. simpl prefix_from. rewrite map2_cons. f_equal.
  replace (a - b + (x - y))%Z with ((a + x) - (b + y))%Z by lia.
  apply IH. simpl in Hlen. lia.
Qed.

Lemma remainder_length (l : list Z) : length (remainder l) = length l.
Proof.
  unfold remainder. rewrite length_map, cumsum_shift. apply prefix_from_length.
Qed.

(** The remainder of a difference of two columns is the difference of
    their remainders. *)
Lemma remainder_sub (l1 l2 : list Z) :
  length l1 = length l2 ->
  remainder (map2 Z.sub l1 l2) = map2 Z.sub (remainder l1) (remainder l2).
Proof.
  intros Hlen. unfold remainder.
  rewrite !cumsum_shift, sum_map2_sub by exact Hlen.
  replace 0%Z with (0 - 0)%Z at 1 by reflexivity.
  rewrite prefix_from_sub by exact Hlen.
  generalize (sum l1) (sum l2).
  assert (Hp : length (prefix_from 0 l1) = length (prefix_from 0 l2))
    by (rewrite !prefix_from_length; exact Hlen).
  revert Hp. generalize (prefix_from 0 l1) (prefix_from 0 l2).
  induction l as [ | u l IH]; intros [ | v l'] Hp s1 s2;
    try discriminate; [ reflexivity | ].
  rewrite !map2_cons. simpl map. rewrite map2_cons. f_equal; [ lia | ].
  apply IH. simpl in Hp. lia.
Qed.

Lemma map2_sub_add (l1 l2 : list Z) :
  length l1 = length l2 ->
  map2 Z.add (map2 Z.sub l1 l2) l2 = l1.
Proof.
  revert l2. induction l1 as [ | a l1 IH]; intros [ | b l2] Hlen;
    try discriminate; [ reflexivity | ].
  rewrite !map2_cons. f_equal; [ lia | ].
  apply IH. simpl in Hlen. lia.
Qed.

Lemma cumsum_from_length (acc : Z) (l : list Z) :
  length (cumsum_from acc l) = length l.
Proof.
  revert acc. induction l as [ | x r IH]; intros acc; simpl; [ | rewrite IH ];
    reflexivity.
Qed.

Lemma cumsum_from_last (acc d : Z) (l : list Z) :
  l <> [] -> last (cumsum_from acc l) d = (acc + sum l)%Z.
Proof.
  revert acc. induction l as [ | x [ | y r] IH]; intros acc Hne.
  - contradiction.
  - simpl. lia.
  - change (cumsum_from acc (x :: y :: r))
      with ((acc + x)%Z :: cumsum_from (acc + x)%Z (y :: r)).
    change (sum (x :: y :: r)) with (x + sum (y :: r))%Z.
    replace (acc + (x + sum (y :: r)))%Z with ((acc + x) + sum (y :: r))%Z by lia.
    rewrite <- IH by discriminate. reflexivity.
Qed.

Lemma cumsum_from_nondecreasing (acc : Z) (l : list Z) :
  Forall (fun x => 0 <= x)%Z l -> nondecreasing (cumsum_from acc l).
Proof.
  revert acc. induction l as [ | x [ | y r] IH]; intros acc Hpos; simpl.
  - constructor.
  - constructor.
  - inversion Hpos as [ | ? ? Hx Hrest]; subst.
    constructor.
    + inversion Hrest; subst. lia.
    + apply (IH (acc + x)%Z Hrest).
Qed.

Lemma cumsum_from_bounds (acc : Z) (l : list Z) :
  Forall (fun x => 0 <= x)%Z l ->
  Forall (fun c => acc <= c <= acc + sum l)%Z (cumsum_from acc l).
Proof.
  revert acc. induction l as [ | x r IH]; intros acc Hpos; simpl; [ constructor | ].
  inversion Hpos as [ | ? ? Hx Hrest]; subst.
  assert (Hs : (0 <= sum r)%Z).
  { clear -Hrest. induction Hrest; simpl; lia. }
  constructor; [ lia | ].
  specialize (IH (acc + x)%Z Hrest).
  eapply Forall_impl; [ | exact IH ]. simpl. intros c Hc. lia.
Qed.

End Series.

(** ** Grouping by category *)

Section Groupby.

Lemma group_rows_cons (c : option nat) (codes : list (option nat))
      (v : Z) (y : list Z) (k : nat) :
  group_rows (c :: codes) (v :: y) k
  = if code_eqb c k then v :: group_rows codes y k else group_rows codes y k.
Proof.
  unfold group_rows. simpl. destruct (code_eqb c k); reflexivity.
Qed.

Lemma sum_map_add {A : Type} (f g : A -> Z) (s : list A) :
  sum (map (fun k => f k + g k)%Z s) = (sum (map f s) + sum (map g s))%Z.
Proof.
  induction s as [ | a s IH]; simpl; [ reflexivity | rewrite IH; lia ].
Qed.

Lemma sum_map_ext {A : Type} (f g : A -> Z) (s : list A) :
  (forall k, f k = g k) -> sum (map f s) = sum (map g s).
Proof.
  intros H. induction s as [ | a s IH]; simpl; [ reflexivity | ].
  rewrite H, IH. reflexivity.
Qed.

(** Over the categories [a, a+1, ..., a+n-1] a code selects at most one. *)
Lemma indicator_sum (c : option nat) (w : Z) (a n : nat) :
  sum (map (fun k => if code_eqb c k then w else 0%Z) (seq a n))
  = match c with
    | Some j => if (a <=? j)%nat && (j <? a + n)%nat then w else 0%Z
    | None => 0%Z
    end.
Proof.
  revert a. induction n as [ | n IH]; intros a.
  - simpl. destruct c as [j | ]; [ | reflexivity ].
    destruct (Nat.leb_spec a j), (Nat.ltb_spec j (a + 0)); simpl;
      try reflexivity; lia.
  - change (seq a (S n)) with (a :: seq (S a) n).
    rewrite map_cons. change (sum (?x :: ?l)) with (x + sum l)%Z.
    rewrite IH. destruct c as [j | ]; [ | reflexivity ].
    unfold code_eqb.
    destruct (Nat.eqb_spec j a), (Nat.leb_spec (S a) j), (Nat.leb_spec a j),
      (Nat.ltb_spec j (S a + n)), (Nat.ltb_spec j (a + S n));
      simpl; try reflexivity; lia.
Qed.

Lemma indicator_total (K : nat) (c : option nat) (w : Z) :
  code_in K c ->
  sum (map (fun k => if code_eqb c k then w else 0%Z) (seq 0 K)) = w.
Proof.
  intros Hc. rewrite indicator_sum. destruct c as [j | ]; [ | contradiction ].
  simpl in Hc. simpl.
  destruct (Nat.ltb_spec j K); [ reflexivity | lia ].
Qed.

Lemma group_size_cons (c : option nat) codes v y k :
  group_size (c :: codes) (v :: y) k
  = ((if code_eqb c k then 1 else 0) + group_size codes y k)%Z.
Proof.
  unfold group_size. rewrite group_rows_cons.
  destruct (code_eqb c k); [ | reflexivity ].
  simpl length. lia.
Qed.

Lemma group_sum_cons (c : option nat) codes v y k :
  group_sum (c :: codes) (v :: y) k
  = ((if code_eqb c k then v else 0) + group_sum codes y k)%Z.
Proof.
  unfold group_sum. rewrite group_rows_cons.
  destruct (code_eqb c k); reflexivity.
Qed.

(** When every row falls in a category, the group sizes add up to the
    number of rows and the group sums to the sum of the column. *)
Lemma group_size_total (K : nat) (codes : list (option nat)) (y : list Z) :
  Forall (code_in K) codes -> length codes = length y ->
  sum (map (group_size codes y) (seq 0 K)) = Z.of_nat (length codes).
Proof.
  intros Hall. revert y.
  induction Hall as [ | c codes Hc Hall IH]; intros [ | v y] Hlen;
    try discriminate.
  - clear. induction (seq 0 K); simpl; [ reflexivity | ]. assumption.
  - rewrite (sum_map_ext _ _ _ (group_size_cons c codes v y)).
    rewrite sum_map_add, indicator_total by exact Hc.
    rewrite IH by (simpl in Hlen; lia). simpl length. lia.
Qed.

Lemma group_sum_total (K : nat) (codes : list (option nat)) (y : list Z) :
  Forall (code_in K) codes -> length codes = length y ->
  sum (map (group_sum codes y) (seq 0 K)) = sum y.
Proof.
  intros Hall. revert y.
  induction Hall as [ | c codes Hc Hall IH]; intros [ | v y] Hlen;
    try discriminate.
  - clear. induction (seq 0 K); simpl; [ reflexivity | ]. assumption.
  - rewrite (sum_map_ext _ _ _ (group_sum_cons c codes v y)).
    rewrite sum_map_add, indicator_total by exact Hc.
    rewrite IH by (simpl in Hlen; lia). reflexivity.
Qed.

(** With labels 0 and 1 a group holds between zero and [size] ones. *)

Lemma group_sum_bounds (codes : list (option nat)) (y : list Z) (k : nat) :
  Forall binary y ->
  (0 <= group_sum codes y k <= group_size codes y k)%Z.
Proof.
  intros Hy. revert codes.
  induction Hy as [ | v y Hv Hy IH]; intros [ | c codes].
  - cbv. split; discriminate.
  - cbv. split; discriminate.
  - cbv. split; discriminate.
  - rewrite group_sum_cons, group_size_cons. specialize (IH codes).
    destruct (code_eqb c k); destruct Hv; lia.
Qed.

Lemma sum_binary_bounds (y : list Z) :
  Forall binary y -> (0 <= sum y <= Z.of_nat (length y))%Z.
Proof.
  induction 1 as [ | v y Hv Hy IH]; [ simpl; lia | ].
  simpl sum. simpl length. destruct Hv; lia.
Qed.

End Groupby.

(** ** Sorting *)

Section Sorting.

Lemma Qle_bool_false (a b : Q) : Qle_bool a b = false -> b < a.
Proof.
  intros H. apply Qnot_le_lt. intros Hle.
  apply Qle_bool_iff in Hle. congruence.
Qed.

Lemma Qeq_bool_false (a b : Q) : Qeq_bool a b = false -> ~ a == b.
Proof.
  intros H Heq. apply Qeq_bool_iff in Heq. congruence.
Qed.

Lemma insert_In (v e : Q) (l : list Q) :
  In e (insert v l) <-> e = v \/ In e l.
Proof.
  induction l as [ | h t IH]; simpl.
  - intuition.
  - destruct (Qle_bool v h); simpl; rewrite ?IH; intuition.
Qed.

Lemma sort_In (e : Q) (l : list Q) : In e (sort l) <-> In e l.
Proof.
  induction l as [ | h t IH]; simpl; [ tauto | ].
  rewrite insert_In, IH. intuition.
Qed.

Lemma insert_length (v : Q) (l : list Q) : length (insert v l) = S (length l).
Proof.
  induction l as [ | h t IH]; simpl; [ reflexivity | ].
  destruct (Qle_bool v h); simpl; [ | rewrite IH ]; reflexivity.
Qed.

Lemma sort_length (l : list Q) : length (sort l) = length l.
Proof.
  induction l as [ | h t IH]; simpl; [ reflexivity | ].
  rewrite insert_length, IH. reflexivity.
Qed.

Lemma insert_sorted (v : Q) (l : list Q) :
  StronglySorted Qle l -> StronglySorted Qle (insert v l).
Proof.
  induction 1 as [ | h t Ht IH Hh]; simpl.
  - constructor; constructor.
  - destruct (Qle_bool v h) eqn:E.
    + apply Qle_bool_iff in E. constructor.
      * constructor; assumption.
      * constructor; [ exact E | ].
        eapply Forall_impl; [ | exact Hh ]. intros a Ha. simpl in Ha.
        apply Qle_trans with h; assumption.
    + apply Qle_bool_false in E. constructor; [ exact IH | ].
      apply Forall_forall. intros e He. apply insert_In in He.
      destruct He as [-> | He].
      * apply Qlt_le_weak, E.
      * rewrite Forall_forall in Hh. apply Hh, He.
Qed.

Lemma sort_sorted (l : list Q) : StronglySorted Qle (sort l).
Proof.
  induction l as [ | h t IH]; simpl; [ constructor | ].
  apply insert_sorted, IH.
Qed.

Lemma sorted_nth (l : list Q) (i j : nat) :
  StronglySorted Qle l -> (i <= j)%nat -> (j < length l)%nat ->
  nth i l 0 <= nth j l 0.
Proof.
  intros Hs. revert i j. induction Hs as [ | h t Ht IH Hh]; intros i j Hij Hj.
  - simpl in Hj. lia.
  - destruct i as [ | i], j as [ | j]; simpl in *.
    + apply Qle_refl.
    + rewrite Forall_forall in Hh. apply Hh, nth_In. lia.
    + lia.
    + apply IH; lia.
Qed.

(** The lowest and the highest value of a sorted array. *)
Lemma sort_min_max (x : list Q) (v : Q) :
  In v x ->
  nth 0 (sort x) 0 <= v /\ v <= nth (length x - 1) (sort x) 0.
Proof.
  intros Hv. apply sort_In in Hv.
  destruct (In_nth _ _ 0 Hv) as [i [Hi <-]].
  rewrite sort_length in Hi.
  split; apply sorted_nth; try apply sort_sorted;
    rewrite ?sort_length; lia.
Qed.

End Sorting.

(** ** Quantiles *)

Section Quantile.

Variable values : list Q.
Hypothesis values_sorted : StronglySorted Qle values.

(** The interpolation formula also covers the case of a whole index. *)
Lemma get_score_eq (at_ : Q) :
  get_score values at_
  == nth (Z.to_nat (Qfloor (at_ * inject_Z (Z.of_nat (length values - 1))))) values 0
     + (nth (S (Z.to_nat (Qfloor (at_ * inject_Z (Z.of_nat (length values - 1))))))
            values 0
        - nth (Z.to_nat (Qfloor (at_ * inject_Z (Z.of_nat (length values - 1)))))
              values 0)
       * (at_ * inject_Z (Z.of_nat (length values - 1))
          - inject_Z (Qfloor (at_ * inject_Z (Z.of_nat (length values - 1))))).
Proof.
  unfold get_score.
  destruct (Qeq_bool _ 0) eqn:E; [ | reflexivity ].
  apply Qeq_bool_iff in E. rewrite E. ring.
Qed.

(** Inside one cell of the sorted array the interpolated score lies between
    the cell's two ends. *)
Lemma cell_bounds (z : Z) (f : Q) :
  (0 <= z <= Z.of_nat (length values - 1))%Z ->
  0 <= f -> f < 1 ->
  f == 0 \/ (z < Z.of_nat (length values - 1))%Z ->
  nth (Z.to_nat z) values 0
  <= nth (Z.to_nat z) values 0
     + (nth (S (Z.to_nat z)) values 0 - nth (Z.to_nat z) values 0) * f
  /\ ((z < Z.of_nat (length values - 1))%Z ->
      nth (Z.to_nat z) values 0
      + (nth (S (Z.to_nat z)) values 0 - nth (Z.to_nat z) values 0) * f
      <= nth (S (Z.to_nat z)) values 0).
Proof.
  intros Hz Hf0 Hf1 Hcase.
  assert (Hstep : (z < Z.of_nat (length values - 1))%Z ->
                  nth (Z.to_nat z) values 0 <= nth (S (Z.to_nat z)) values 0).
  { intros Hlt. apply sorted_nth; [ exact values_sorted | lia | lia ]. }
  split.
  - destruct Hcase as [Hzero | Hlt].
    + rewrite Hzero. lra.
    + specialize (Hstep Hlt). nra.
  - intros Hlt. specialize (Hstep Hlt). nra.
Qed.

Lemma get_score_mono (a1 a2 : Q) :
  0 <= a1 -> a1 <= a2 -> a2 <= 1 ->
  get_score values a1 <= get_score values a2.
Proof.
  intros H0 H12 H1.
  rewrite (get_score_eq a1), (get_score_eq a2).
  set (n := Z.of_nat (length values - 1)).
  assert (Hn : 0 <= inject_Z n).
  { change 0 with (inject_Z 0). rewrite <- Zle_Qle. lia. }
  set (i1 := a1 * inject_Z n). set (i2 := a2 * inject_Z n).
  assert (Hi1 : 0 <= i1) by (unfold i1; nra).
  assert (Hi12 : i1 <= i2) by (unfold i1, i2; nra).
  assert (Hi2 : i2 <= inject_Z n) by (unfold i2; nra).
  pose proof (Qfloor_le i1) as Hf1. pose proof (Qlt_floor i1) as Hc1.
  pose proof (Qfloor_le i2) as Hf2. pose proof (Qlt_floor i2) as Hc2.
  assert (Hz1 : (0 <= Qfloor i1)%Z).
  { change 0%Z with (Qfloor 0). apply Qfloor_resp_le, Hi1. }
  assert (Hz12 : (Qfloor i1 <= Qfloor i2)%Z) by apply Qfloor_resp_le, Hi12.
  assert (Hz2 : (Qfloor i2 <= n)%Z).
  { rewrite <- (Qfloor_Z n). apply Qfloor_resp_le, Hi2. }
  rewrite inject_Z_plus in Hc1, Hc2. change (inject_Z 1) with 1 in Hc1, Hc2.
  assert (Hlast : forall i, i <= inject_Z n -> (Qfloor i <= n)%Z ->
            i - inject_Z (Qfloor i) == 0 \/ (Qfloor i < n)%Z).
  { intros i Hi Hz. destruct (Z.eq_dec (Qfloor i) n) as [E | E]; [ left | right; lia ].
    pose proof (Qfloor_le i) as Hfl. rewrite E in *. lra. }
  destruct (cell_bounds (Qfloor i1) (i1 - inject_Z (Qfloor i1))) as [Hlo1 Hhi1];
    [ fold n; lia | lra | lra | apply Hlast; [ lra | lia ] | ].
  destruct (cell_bounds (Qfloor i2) (i2 - inject_Z (Qfloor i2))) as [Hlo2 Hhi2];
    [ fold n; lia | lra | lra | apply Hlast; [ lra | lia ] | ].
  fold n in Hhi1, Hhi2.
  destruct (Z.eq_dec (Qfloor i1) (Qfloor i2)) as [E | E].
  - rewrite E in *.
    destruct (Hlast i2 Hi2 Hz2) as [Hzero | Hlt].
    + assert (Hzero1 : i1 - inject_Z (Qfloor i2) == 0) by lra.
      rewrite Hzero, Hzero1. lra.
    + assert (Hstep : nth (Z.to_nat (Qfloor i2)) values 0
                      <= nth (S (Z.to_nat (Qfloor i2))) values 0).
      { apply sorted_nth; [ exact values_sorted | lia | unfold n in Hlt; lia ]. }
      nra.
  - assert (Hlt : (Qfloor i1 < n)%Z) by lia.
    specialize (Hhi1 Hlt).
    apply Qle_trans with (nth (S (Z.to_nat (Qfloor i1))) values 0); [ exact Hhi1 | ].
    apply Qle_trans with (nth (Z.to_nat (Qfloor i2)) values 0); [ | exact Hlo2 ].
    apply sorted_nth; [ exact values_sorted | lia | unfold n in Hz2; lia ].
Qed.

Lemma get_score_first (at_ : Q) :
  at_ == 0 -> get_score values at_ = nth 0 values 0.
Proof.
  intros H0. unfold get_score.
  assert (Hidx : at_ * inject_Z (Z.of_nat (length values - 1)) == 0)
    by (rewrite H0; ring).
  assert (Hfl : Qfloor (at_ * inject_Z (Z.of_nat (length values - 1))) = 0%Z)
    by (rewrite Hidx; reflexivity).
  rewrite Hfl.
  assert (E : Qeq_bool (at_ * inject_Z (Z.of_nat (length values - 1)) - inject_Z 0) 0
              = true).
  { apply Qeq_bool_iff. rewrite Hidx. reflexivity. }
  rewrite E. reflexivity.
Qed.

Lemma get_score_last (at_ : Q) :
  at_ == 1 -> get_score values at_ = nth (length values - 1) values 0.
Proof.
  intros H1. unfold get_score.
  assert (Hidx : at_ * inject_Z (Z.of_nat (length values - 1))
                 == inject_Z (Z.of_nat (length values - 1)))
    by (rewrite H1; ring).
  assert (Hfl : Qfloor (at_ * inject_Z (Z.of_nat (length values - 1)))
                = Z.of_nat (length values - 1))
    by (rewrite Hidx; apply Qfloor_Z).
  rewrite Hfl.
  assert (E : Qeq_bool (at_ * inject_Z (Z.of_nat (length values - 1))
                        - inject_Z (Z.of_nat (length values - 1))) 0 = true).
  { apply Qeq_bool_iff. rewrite Hidx. ring. }
  rewrite E, Nat2Z.id. reflexivity.
Qed.

End Quantile.

(** ** The quantile fractions *)

Section Linspace.

Lemma linspace01_cons (q : nat) :
  linspace01 q
  = (0 # Pos.of_nat q) :: map (fun k => Z.of_nat k # Pos.of_nat q) (seq 1 q).
Proof.
  unfold linspace01. rewrite Nat.add_1_r. reflexivity.
Qed.

Lemma linspace01_length (q : nat) : length (linspace01 q) = S q.
Proof.
  unfold linspace01. rewrite length_map, length_seq. lia.
Qed.

Lemma linspace01_last (q : nat) :
  (1 <= q)%nat -> exists a, In a (linspace01 q) /\ a == 1.
Proof.
  intros Hq. exists (Z.of_nat q # Pos.of_nat q). split.
  - unfold linspace01. apply in_map_iff. exists q. split; [ reflexivity | ].
    apply in_seq. lia.
  - unfold Qeq. simpl.
    rewrite <- (positive_nat_Z (Pos.of_nat q)), Nat2Pos.id by lia. lia.
Qed.

Lemma linspace01_range (q : nat) :
  Forall (fun a => 0 <= a /\ a <= 1) (linspace01 q).
Proof.
  apply Forall_forall. intros a Ha. unfold linspace01 in Ha.
  apply in_map_iff in Ha. destruct Ha as [k [<- Hk]]. apply in_seq in Hk.
  unfold Qle. simpl. split; [ lia | ].
  destruct q as [ | q'].
  - assert (k = 0%nat) by lia. subst. simpl. lia.
  - rewrite <- (positive_nat_Z (Pos.of_nat (S q'))), Nat2Pos.id by lia. lia.
Qed.

Lemma fractions_sorted (p : positive) (a n : nat) :
  StronglySorted Qle (map (fun k => Z.of_nat k # p) (seq a n)).
Proof.
  revert a. induction n as [ | n IH]; intros a; simpl; constructor.
  - apply IH.
  - apply Forall_forall. intros e He. apply in_map_iff in He.
    destruct He as [k [<- Hk]]. apply in_seq in Hk.
    unfold Qle. simpl. apply Z.mul_le_mono_nonneg_r; lia.
Qed.

Lemma linspace01_sorted (q : nat) : StronglySorted Qle (linspace01 q).
Proof. apply fractions_sorted. Qed.

(** Quantiles at increasing fractions of a sorted array are increasing. *)
Lemma scores_sorted (values qs : list Q) :
  StronglySorted Qle values ->
  StronglySorted Qle qs -> Forall (fun a => 0 <= a /\ a <= 1) qs ->
  StronglySorted Qle (map (get_score values) qs).
Proof.
  intros Hv Hs. induction Hs as [ | a qs Hs IH Ha]; intros Hr; simpl;
    constructor.
  - apply IH. inversion Hr; assumption.
  - inversion Hr as [ | ? ? Hra Hrqs]; subst.
    rewrite Forall_forall in *. intros e He. apply in_map_iff in He.
    destruct He as [b [<- Hb]].
    apply get_score_mono; [ exact Hv | apply Hra | apply Ha, Hb | apply Hrqs, Hb ].
Qed.

Lemma quantile_sorted (x : list Q) (q : nat) :
  StronglySorted Qle (quantile x (linspace01 q)).
Proof.
  apply scores_sorted;
    [ apply sort_sorted | apply linspace01_sorted | apply linspace01_range ].
Qed.

Lemma quantile_length (x : list Q) (q : nat) :
  length (quantile x (linspace01 q)) = S q.
Proof.
  unfold quantile. rewrite length_map. apply linspace01_length.
Qed.

Lemma quantile_hd (x : list Q) (q : nat) :
  hd 0 (quantile x (linspace01 q)) = nth 0 (sort x) 0.
Proof.
  unfold quantile. rewrite linspace01_cons. simpl hd.
  apply get_score_first. reflexivity.
Qed.

Lemma quantile_max (x : list Q) (q : nat) :
  (1 <= q)%nat ->
  In (nth (length x - 1) (sort x) 0) (quantile x (linspace01 q)).
Proof.
  intros Hq. destruct (linspace01_last q Hq) as [a [Ha H1]].
  unfold quantile. apply in_map_iff. exists a. split; [ | exact Ha ].
  rewrite (get_score_last _ _ H1), sort_length. reflexivity.
Qed.

End Linspace.

(** ** Dropping duplicate edges *)

Section Unique.

Lemma filter_length_le {A : Type} (f : A -> bool) (l : list A) :
  (length (filter f l) <= length l)%nat.
Proof.
  induction l as [ | a l IH]; simpl; [ lia | ].
  destruct (f a); simpl; lia.
Qed.

Lemma filter_full {A : Type} (f : A -> bool) (l : list A) :
  length (filter f l) = length l -> filter f l = l.
Proof.
  induction l as [ | a l IH]; simpl; [ reflexivity | ].
  pose proof (filter_length_le f l) as Hle.
  destruct (f a); simpl; intros H; [ f_equal; apply IH; lia | lia ].
Qed.

Lemma filter_sorted {A : Type} (R : A -> A -> Prop) (f : A -> bool) (l : list A) :
  StronglySorted R l -> StronglySorted R (filter f l).
Proof.
  induction 1 as [ | a l Hs IH Ha]; simpl; [ constructor | ].
  destruct (f a); [ | exact IH ].
  constructor; [ exact IH | ].
  rewrite Forall_forall in *. intros e He. apply filter_In in He. apply Ha, He.
Qed.

Lemma unique_In (e : Q) (l : list Q) : In e (unique l) -> In e l.
Proof.
  induction l as [ | v r IH]; simpl; [ tauto | ].
  intros [H | H]; [ left; exact H | right ].
  apply filter_In in H. apply IH, H.
Qed.

Lemma unique_complete (e : Q) (l : list Q) :
  In e l -> exists e', In e' (unique l) /\ e' == e.
Proof.
  induction l as [ | v r IH]; simpl; [ tauto | ].
  intros [-> | H].
  - exists e. split; [ left; reflexivity | reflexivity ].
  - destruct (IH H) as [e' [He' Heq]].
    destruct (Qeq_bool v e') eqn:E.
    + apply Qeq_bool_iff in E. exists v. split; [ left; reflexivity | ].
      rewrite E. exact Heq.
    + exists e'. split; [ | exact Heq ]. right.
      apply filter_In. split; [ exact He' | rewrite E; reflexivity ].
Qed.

Lemma unique_length (l : list Q) : (length (unique l) <= length l)%nat.
Proof.
  induction l as [ | v r IH]; simpl; [ lia | ].
  pose proof (filter_length_le (fun w => negb (Qeq_bool v w)) (unique r)). lia.
Qed.

Lemma unique_full (l : list Q) : length (unique l) = length l -> unique l = l.
Proof.
  induction l as [ | v r IH]; simpl; [ reflexivity | ].
  pose proof (filter_length_le (fun w => negb (Qeq_bool v w)) (unique r)) as H1.
  pose proof (unique_length r) as H2.
  intros H. f_equal. rewrite filter_full by lia. apply IH. lia.
Qed.

Lemma unique_sorted (l : list Q) :
  StronglySorted Qle l -> StronglySorted Qlt (unique l).
Proof.
  induction 1 as [ | v r Hs IH Hv]; simpl; constructor.
  - apply filter_sorted, IH.
  - rewrite Forall_forall in *. intros e He. apply filter_In in He.
    destruct He as [He Hne]. apply unique_In in He.
    apply negb_true_iff, Qeq_bool_false in Hne.
    specialize (Hv e He). apply Qle_lteq in Hv.
    destruct Hv as [Hlt | Heq]; tauto.
Qed.

Lemma drop_duplicates_cases (l : list Q) :
  (drop_duplicates l = unique l)
  \/ (drop_duplicates l = l /\ (unique l = l \/ length l = 2%nat)).
Proof.
  unfold drop_duplicates.
  destruct (Nat.ltb_spec (length (unique l)) (length l)) as [Hlt | Hge]; simpl.
  - destruct (Nat.eqb_spec (length l) 2) as [H2 | H2]; simpl; tauto.
  - right. split; [ reflexivity | left ].
    apply unique_full. pose proof (unique_length l). lia.
Qed.

Lemma drop_duplicates_hd (l : list Q) : hd 0 (drop_duplicates l) = hd 0 l.
Proof.
  destruct (drop_duplicates_cases l) as [-> | [-> _]]; [ | reflexivity ].
  destruct l; reflexivity.
Qed.

Lemma drop_duplicates_In (e : Q) (l : list Q) :
  In e (drop_duplicates l) -> In e l.
Proof.
  destruct (drop_duplicates_cases l) as [-> | [-> _]]; [ apply unique_In | tauto ].
Qed.

Lemma drop_duplicates_complete (e : Q) (l : list Q) :
  In e l -> exists e', In e' (drop_duplicates l) /\ e' == e.
Proof.
  destruct (drop_duplicates_cases l) as [-> | [-> _]].
  - apply unique_complete.
  - intros H. exists e. split; [ exact H | reflexivity ].
Qed.

Lemma drop_duplicates_length (l : list Q) :
  (length (drop_duplicates l) <= length l)%nat.
Proof.
  destruct (drop_duplicates_cases l) as [-> | [-> _]];
    [ apply unique_length | lia ].
Qed.


End Unique.

(** ** Every value falls in one category *)

Section Coverage.

Lemma from_breaks_length (l : list Q) :
  length (from_breaks l) = (length l - 1)%nat.
Proof.
  induction l as [ | a [ | b r] IH]; try reflexivity.
  change (from_breaks (a :: b :: r)) with (mkInterval a b :: from_breaks (b :: r)).
  simpl length in *. rewrite IH. lia.
Qed.

Lemma from_breaks_nth (l : list Q) (k : nat) (d : Interval) :
  (S k < length l)%nat ->
  nth k (from_breaks l) d = mkInterval (nth k l 0) (nth (S k) l 0).
Proof.
  revert k. induction l as [ | a [ | b r] IH]; intros k Hk; simpl in Hk; try lia.
  change (from_breaks (a :: b :: r)) with (mkInterval a b :: from_breaks (b :: r)).
  destruct k as [ | k]; [ reflexivity | ].
  change (nth (S k) (mkInterval a b :: from_breaks (b :: r)) d)
    with (nth k (from_breaks (b :: r)) d).
  rewrite IH by (simpl; lia). reflexivity.
Qed.

Lemma format_labels_length (bins : list Q) :
  length (format_labels bins) = (length bins - 1)%nat.
Proof.
  unfold format_labels. rewrite from_breaks_length.
  destruct bins; reflexivity.
Qed.



(** [searchsorted] stops at the first edge that is not below [v]. *)
Lemma searchsorted_spec (bins : list Q) (v : Q) :
  ((searchsorted bins v < length bins)%nat ->
   v <= nth (searchsorted bins v) bins 0)
  /\ (forall j, (j < searchsorted bins v)%nat -> nth j bins 0 < v).
Proof.
  induction bins as [ | b r [IH1 IH2]]; simpl.
  - split; intros; lia.
  - destruct (Qle_bool v b) eqn:E.
    + apply Qle_bool_iff in E. split; [ intros _; exact E | intros; lia ].
    + apply Qle_bool_false in E. split.
      * intros H. apply IH1. lia.
      * intros [ | j] Hj; [ exact E | apply IH2; lia ].
Qed.

Lemma searchsorted_lt (bins : list Q) (v e : Q) :
  In e bins -> v <= e -> (searchsorted bins v < length bins)%nat.
Proof.
  induction bins as [ | b r IH]; simpl; [ tauto | ].
  intros Hin Hle. destruct (Qle_bool v b) eqn:E; [ lia | ].
  apply Qle_bool_false in E.
  destruct Hin as [-> | Hin]; [ lra | ].
  specialize (IH Hin Hle). lia.
Qed.

(** A value between the lowest edge and some edge gets a category. *)
Lemma code_of_valid (bins : list Q) (v e : Q) :
  (2 <= length bins)%nat -> hd 0 bins <= v -> In e bins -> v <= e ->
  exists k, code_of bins v = Some k /\ (S k < length bins)%nat
            /\ bin_id bins v = S k.
Proof.
  intros Hlen Hlo Hin Hhi. unfold code_of.
  assert (Hid : (1 <= bin_id bins v < length bins)%nat).
  { unfold bin_id. destruct (Qeq_bool v (hd 0 bins)) eqn:E; [ lia | ].
    apply Qeq_bool_false in E.
    pose proof (searchsorted_lt bins v e Hin Hhi) as Hlt.
    split; [ | exact Hlt ].
    destruct bins as [ | b r]; [ simpl in Hlen; lia | ].
    simpl in *. destruct (Qle_bool v b) eqn:E'; [ | lia ].
    apply Qle_bool_iff in E'. exfalso. apply E. lra. }
  destruct (Nat.eqb_spec (bin_id bins v) (length bins)) as [H1 | H1]; [ lia | ].
  destruct (Nat.eqb_spec (bin_id bins v) 0) as [H0 | H0]; [ lia | ].
  simpl. exists (bin_id bins v - 1)%nat. repeat split; lia.
Qed.

(** The value lies in the interval of its category. *)
Lemma code_of_interval (bins : list Q) (v : Q) (k : nat) (d : Interval) :
  StronglySorted Qle bins -> (S k < length bins)%nat ->
  bin_id bins v = S k ->
  in_interval v (nth k (format_labels bins) d).
Proof.
  intros Hs Hk Hid. unfold format_labels.
  rewrite from_breaks_nth by (destruct bins; simpl in *; lia).
  unfold in_interval. simpl.
  assert (Hright : nth (S k) (breaks_of bins) 0 = nth (S k) bins 0)
    by (destruct bins; reflexivity).
  rewrite Hright.
  unfold bin_id in Hid. destruct (Qeq_bool v (hd 0 bins)) eqn:E.
  - apply Qeq_bool_iff in E. injection Hid as <-.
    destruct bins as [ | b r]; [ simpl in Hk; lia | ].
    simpl hd in E. simpl nth at 1. split; [ lra | ].
    rewrite E. apply (sorted_nth (b :: r) 0 1 Hs); lia.
  - apply Qeq_bool_false in E.
    destruct (searchsorted_spec bins v) as [Hup Hdown].
    rewrite Hid in Hup, Hdown. split; [ | apply Hup, Hk ].
    specialize (Hdown k (Nat.lt_succ_diag_r k)).
    destruct bins as [ | b r]; [ simpl in Hk; lia | ].
    destruct k as [ | k]; simpl in *; lra.
Qed.

End Coverage.

(** ** The edges [qcut] works with *)

Section Edges.

Variable x : list Q.
Variable q : nat.

Lemma strict_weaken (l : list Q) : StronglySorted Qlt l -> StronglySorted Qle l.
Proof.
  induction 1 as [ | a l Hs IH Ha]; constructor; [ exact IH | ].
  eapply Forall_impl; [ | exact Ha ]. intros b Hb. apply Qlt_le_weak, Hb.
Qed.

Lemma qcut_bins_sorted : StronglySorted Qle (qcut_bins x q).
Proof.
  unfold qcut_bins. pose proof (quantile_sorted x q) as Hs.
  destruct (drop_duplicates_cases (quantile x (linspace01 q))) as [-> | [-> _]];
    [ apply strict_weaken, unique_sorted, Hs | exact Hs ].
Qed.

Lemma qcut_bins_length : (length (qcut_bins x q) <= S q)%nat.
Proof.
  unfold qcut_bins. rewrite <- (quantile_length x q).
  apply drop_duplicates_length.
Qed.

Lemma qcut_bins_hd : hd 0 (qcut_bins x q) = nth 0 (sort x) 0.
Proof.
  unfold qcut_bins. rewrite drop_duplicates_hd. apply quantile_hd.
Qed.

Lemma qcut_bins_max :
  (1 <= q)%nat ->
  exists e, In e (qcut_bins x q) /\ e == nth (length x - 1) (sort x) 0.
Proof.
  intros Hq. apply drop_duplicates_complete, quantile_max, Hq.
Qed.

Lemma qcut_bins_one : q = 1%nat -> length (qcut_bins x q) = 2%nat.
Proof.
  intros ->. unfold qcut_bins, drop_duplicates.
  rewrite (quantile_length x 1). rewrite andb_false_r. apply quantile_length.
Qed.

Lemma qcut_bins_two :
  (1 <= q)%nat -> q = 1%nat \/ distinct_values x ->
  (2 <= length (qcut_bins x q))%nat.
Proof.
  intros Hq [H1 | [a [b [Ha [Hb Hab]]]]].
  - rewrite (qcut_bins_one H1). lia.
  - destruct (qcut_bins_max Hq) as [e [He Heq]].
    pose proof qcut_bins_hd as Hhd.
    destruct (sort_min_max x a Ha) as [Ha1 Ha2].
    destruct (sort_min_max x b Hb) as [Hb1 Hb2].
    destruct (qcut_bins x q) as [ | h [ | h' r]]; simpl in *; try lia.
    exfalso. destruct He as [<- | []]. subst h. apply Hab. lra.
Qed.

(** Every value of [x] gets the code of a category whose interval holds it. *)
Lemma qcut_assigns (v : Q) :
  (1 <= q)%nat -> q = 1%nat \/ distinct_values x -> In v x ->
  exists k, code_of (qcut_bins x q) v = Some k
            /\ (k < length (format_labels (qcut_bins x q)))%nat
            /\ forall d, in_interval v (nth k (format_labels (qcut_bins x q)) d).
Proof.
  intros Hq Hd Hv.
  destruct (qcut_bins_max Hq) as [e [He Heq]].
  destruct (sort_min_max x v Hv) as [Hlo Hhi].
  destruct (code_of_valid (qcut_bins x q) v e) as [k [Hk [Hlen Hid]]].
  - apply qcut_bins_two; assumption.
  - rewrite qcut_bins_hd. exact Hlo.
  - exact He.
  - rewrite Heq. exact Hhi.
  - exists k. rewrite format_labels_length.
    split; [ exact Hk | split; [ lia | ] ].
    intros d. apply code_of_interval; [ apply qcut_bins_sorted | exact Hlen | exact Hid ].
Qed.

Lemma qcut_codes_in :
  (1 <= q)%nat -> q = 1%nat \/ distinct_values x ->
  Forall (code_in (length (format_labels (qcut_bins x q))))
         (map (code_of (qcut_bins x q)) x).
Proof.
  intros Hq Hd. apply Forall_forall. intros c Hc.
  apply in_map_iff in Hc. destruct Hc as [v [<- Hv]].
  destruct (qcut_assigns v Hq Hd Hv) as [k [-> [Hk _]]]. exact Hk.
Qed.


End Edges.

(** ** Float columns *)

Section Floats.

Lemma div_unit (c n : Z) :
  (0 <= c <= n)%Z -> (0 < n)%Z -> unit_float (div c n).
Proof.
  intros Hc Hn. unfold div.
  destruct (Z.eqb_spec n 0) as [E | _]; [ lia | ].
  unfold unit_float. rewrite Qred_correct.
  assert (Hn' : 0 < inject_Z n) by (change 0 with (inject_Z 0); rewrite <- Zlt_Qlt; lia).
  split.
  - apply Qle_shift_div_l; [ exact Hn' | ].
    rewrite Qmult_0_l. change 0 with (inject_Z 0). rewrite <- Zle_Qle. lia.
  - apply Qle_shift_div_r; [ exact Hn' | ].
    rewrite Qmult_1_l. rewrite <- Zle_Qle. lia.
Qed.

Lemma div_self (n : Z) : n <> 0%Z -> div n n = Fin 1.
Proof.
  intros Hn. unfold div. destruct (Z.eqb_spec n 0) as [E | _]; [ contradiction | ].
  f_equal. change 1 with (Qred 1). apply Qred_complete.
  apply Qmult_inv_r. intros H.
  unfold Qeq in H. simpl in H. lia.
Qed.

Lemma abs_diff_unit (x y : float) :
  unit_float x -> unit_float y -> unit_float (fabs (fsub x y)).
Proof.
  destruct x as [a | | | ], y as [b | | | ]; try (simpl; tauto).
  intros [Ha0 Ha1] [Hb0 Hb1].
  change (0 <= Qabs (Qred (a - b)) /\ Qabs (Qred (a - b)) <= 1).
  rewrite Qred_correct. split.
  - apply Qabs_nonneg.
  - apply Qabs_Qle_condition. split; lra.
Qed.


Lemma Forall_map2 {A B C : Type} (P : A -> Prop) (R : B -> Prop) (S : C -> Prop)
      (f : A -> B -> C) (l1 : list A) (l2 : list B) :
  (forall a b, P a -> R b -> S (f a b)) ->
  Forall P l1 -> Forall R l2 -> Forall S (map2 f l1 l2).
Proof.
  intros Hf H1. revert l2. induction H1 as [ | a l1 Ha H1 IH]; intros l2 H2.
  - constructor.
  - destruct H2 as [ | b l2 Hb H2]; [ constructor | ].
    rewrite map2_cons. constructor; [ apply Hf; assumption | apply IH, H2 ].
Qed.



(** The running maximum over finite values, started at a finite value. *)
Lemma fold_max_finite (l : list float) (a : Q) :
  Forall unit_float l ->
  exists m, fold_left fmax2 l (Fin a) = Fin m
            /\ a <= m
            /\ (m = a \/ In (Fin m) l)
            /\ Forall (fun d => fle d (Fin m)) l.
Proof.
  intros Hl. revert a. induction Hl as [ | d l Hd Hl IH]; intros a.
  - exists a. simpl. repeat split; [ apply Qle_refl | left; reflexivity | constructor ].
  - destruct d as [b | | | ]; try contradiction. simpl fold_left.
    destruct (Qle_bool b a) eqn:E; simpl.
    + apply Qle_bool_iff in E. destruct (IH a) as [m [Hm [Ham [Hin Hall]]]].
      exists m. repeat split; try assumption.
      * destruct Hin as [-> | Hin]; [ left; reflexivity | right; right; exact Hin ].
      * constructor; [ simpl; lra | exact Hall ].
    + apply Qle_bool_false in E. destruct (IH b) as [m [Hm [Hbm [Hin Hall]]]].
      exists m. repeat split; try assumption.
      * lra.
      * right. destruct Hin as [-> | Hin]; [ left; reflexivity | right; exact Hin ].
      * constructor; [ exact Hbm | exact Hall ].
Qed.

(** [Series.max()] of a non-empty column of values in [0,1] is one of
    them, and no entry is above it. *)
Lemma series_max_unit (l : list float) :
  l <> [] -> Forall unit_float l ->
  exists m, series_max l = Fin m
            /\ (0 <= m /\ m <= 1)
            /\ In (Fin m) l
            /\ Forall (fun d => fle d (Fin m)) l.
Proof.
  intros Hne Hl. destruct Hl as [ | d l Hd Hl]; [ contradiction | ].
  destruct d as [a | | | ]; try contradiction.
  unfold series_max. simpl fold_left.
  destruct (fold_max_finite l a Hl) as [m [Hm [Ham [Hin Hall]]]].
  exists m. split; [ exact Hm | ].
  assert (Hmem : In (Fin m) (Fin a :: l)).
  { destruct Hin as [-> | Hin]; [ left; reflexivity | right; exact Hin ]. }
  split; [ | split; [ exact Hmem | constructor; [ exact Ham | exact Hall ] ] ].
  apply (proj1 (Forall_forall _ _) (Forall_cons (Fin a) Hd Hl)) in Hmem.
  exact Hmem.
Qed.


End Floats.

(** ** The columns of the fitted table *)

Section Columns.

Variable y_proba : list Q.
Variable y_true : list Z.
Variable bins : nat.
Hypothesis same_length : length y_proba = length y_true.

Lemma map2_map_same {A B C D : Type} (h : B -> C -> D) (f : A -> B) (g : A -> C)
      (s : list A) :
  map2 h (map f s) (map g s) = map (fun k => h (f k) (g k)) s.
Proof.
  induction s as [ | a s IH]; [ reflexivity | ].
  simpl map. rewrite map2_cons, IH. reflexivity.
Qed.

Lemma map2_length_min {A B C : Type} (f : A -> B -> C) (l1 : list A) (l2 : list B) :
  length (map2 f l1 l2) = Nat.min (length l1) (length l2).
Proof.
  unfold map2. rewrite length_map. apply length_combine.
Qed.

Lemma codes_length :
  length (map (code_of (qcut_bins y_proba bins)) y_proba) = length y_true.
Proof. rewrite length_map. exact same_length. Qed.

Lemma size_total :
  (1 <= bins)%nat -> bins = 1%nat \/ distinct_values y_proba ->
  sum (Table.size (fit_table y_proba y_true bins)) = Z.of_nat (length y_proba).
Proof.
  intros Hb Hd. unfold fit_table, build_table. cbn [Table.size].
  rewrite group_size_total;
    [ rewrite length_map; reflexivity
    | apply qcut_codes_in; assumption
    | apply codes_length ].
Qed.

Lemma class1_total :
  (1 <= bins)%nat -> bins = 1%nat \/ distinct_values y_proba ->
  sum (Table.class1 (fit_table y_proba y_true bins)) = sum y_true.
Proof.
  intros Hb Hd. unfold fit_table, build_table. cbn [Table.class1].
  apply group_sum_total; [ apply qcut_codes_in; assumption | apply codes_length ].
Qed.

Lemma class0_total :
  (1 <= bins)%nat -> bins = 1%nat \/ distinct_values y_proba ->
  sum (Table.class0 (fit_table y_proba y_true bins))
  = (Z.of_nat (length y_proba) - sum y_true)%Z.
Proof.
  intros Hb Hd.
  rewrite <- (size_total Hb Hd), <- (class1_total Hb Hd).
  unfold fit_table, build_table. cbn [Table.size Table.class0 Table.class1].
  apply sum_map2_sub. rewrite !length_map. reflexivity.
Qed.

Lemma class1_nonneg :
  Forall binary y_true ->
  Forall (fun c => 0 <= c)%Z (Table.class1 (fit_table y_proba y_true bins)).
Proof.
  intros Hy. unfold fit_table, build_table. cbn [Table.class1].
  apply Forall_map, Forall_forall. intros k _.
  apply group_sum_bounds, Hy.
Qed.

Lemma class0_nonneg :
  Forall binary y_true ->
  Forall (fun c => 0 <= c)%Z (Table.class0 (fit_table y_proba y_true bins)).
Proof.
  intros Hy. unfold fit_table, build_table. cbn [Table.class0].
  rewrite map2_map_same. apply Forall_map, Forall_forall. intros k _.
  pose proof (group_sum_bounds
                (map (code_of (qcut_bins y_proba bins)) y_proba) y_true k Hy).
  lia.
Qed.

Lemma abs_difference_length :
  length (Table.abs_difference (fit_table y_proba y_true bins))
  = length (format_labels (qcut_bins y_proba bins)).
Proof.
  unfold fit_table, build_table, cumsum. cbn [Table.abs_difference].
  repeat rewrite ?length_map, ?map2_length_min, ?cumsum_from_length, ?length_seq.
  lia.
Qed.

Lemma abs_difference_unit :
  (1 <= bins)%nat -> bins = 1%nat \/ distinct_values y_proba ->
  Forall binary y_true ->
  (0 < sum y_true < Z.of_nat (length y_proba))%Z ->
  Forall unit_float (Table.abs_difference (fit_table y_proba y_true bins)).
Proof.
  intros Hb Hd Hy Hn.
  pose proof (cumsum_from_bounds 0 _ (class0_nonneg Hy)) as H0.
  pose proof (cumsum_from_bounds 0 _ (class1_nonneg Hy)) as H1.
  rewrite (class0_total Hb Hd) in H0. rewrite (class1_total Hb Hd) in H1.
  unfold fit_table, build_table in *.
  cbn [Table.abs_difference Table.class0 Table.class1] in *.
  apply Forall_map.
  apply (Forall_map2 unit_float unit_float); [ exact abs_diff_unit | | ];
    apply Forall_map.
  - eapply Forall_impl; [ | exact H0 ]. intros c Hc. simpl in Hc.
    apply div_unit; lia.
  - eapply Forall_impl; [ | exact H1 ]. intros c Hc. simpl in Hc.
    apply div_unit; lia.
Qed.

End Columns.

(** ** Valid inputs *)

Section Valid.

Lemma sum_with_one (y : list Z) :
  Forall binary y -> In 1%Z y -> (1 <= sum y)%Z.
Proof.
  induction 1 as [ | v y Hv Hy IH]; simpl; [ tauto | ].
  pose proof (sum_binary_bounds y Hy).
  intros [-> | Hin]; [ lia | ]. specialize (IH Hin). destruct Hv; lia.
Qed.

Lemma sum_with_zero (y : list Z) :
  Forall binary y -> In 0%Z y -> (sum y <= Z.of_nat (length y) - 1)%Z.
Proof.
  induction 1 as [ | v y Hv Hy IH]; [ simpl; tauto | ].
  pose proof (sum_binary_bounds y Hy).
  simpl sum. simpl length.
  intros [-> | Hin]; [ lia | ]. specialize (IH Hin). destruct Hv; lia.
Qed.

Lemma valid_counts (y_proba : list Q) (y_true : list Z) :
  valid_input y_proba y_true ->
  (0 < sum y_true < Z.of_nat (length y_proba))%Z.
Proof.
  intros [Hlen [_ [Hy [H0 H1]]]]. rewrite Hlen.
  pose proof (sum_with_one y_true Hy H1).
  pose proof (sum_with_zero y_true Hy H0). lia.
Qed.

Lemma labels_nonempty (y_proba : list Q) (bins : nat) :
  (1 <= bins)%nat -> bins = 1%nat \/ distinct_values y_proba ->
  (1 <= length (format_labels (qcut_bins y_proba bins)))%nat.
Proof.
  intros Hb Hd. rewrite format_labels_length.
  pose proof (qcut_bins_two y_proba bins Hb Hd). lia.
Qed.






End Valid.

(** * The claims *)

Ltac concrete_valid :=
  split; [ reflexivity | ];
  split; [ repeat (constructor; [ split; lra | ]); constructor | ];
  split; [ repeat (constructor; [ (left; reflexivity) || (right; reflexivity) | ]);
           constructor | ];
  split; simpl; tauto.

Ltac concrete_distinct a b :=
  exists a, b; split; [ simpl; tauto | ];
  split; [ simpl; tauto | ];
  let H := fresh in intros H; unfold Qeq in H; simpl in H; discriminate.

(** ** C1: the bin columns add up to the totals *)

(** C1, as amended.  For every valid input whose probabilities take at least
    two different values, or with [bins = 1], [fit] returns a result in
    which the [size] column adds up to [obs], the [class0] column to
    [class0] and the [class1] column to [class1]; [obs] is the number of
    observations. *)
Theorem fit_sums_match_totals (y_proba : list Q) (y_true : list Z) (bins : nat) :
  valid_input y_proba y_true ->
  (1 <= bins)%nat ->
  bins = 1%nat \/ distinct_values y_proba ->
  exists r, fit y_proba y_true bins false = inr r
            /\ obs r = Z.of_nat (length y_proba)
            /\ sum (Table.size (table r)) = obs r
            /\ sum (Table.class0 (table r)) = class0 r
            /\ sum (Table.class1 (table r)) = class1 r.
Proof.
  intros Hv Hb Hd. pose proof Hv as [Hlen _].
  exists (fit_value y_proba y_true bins).
  split; [ apply fit_no_round, Hlen | ].
  unfold fit_value. cbn [obs class0 class1 table].
  rewrite (size_total y_proba y_true bins Hlen Hb Hd).
  rewrite (class0_total y_proba y_true bins Hlen Hb Hd).
  rewrite (class1_total y_proba y_true bins Hlen Hb Hd).
  repeat split; lia.
Qed.

Lemma fit_sums_match_totals_witness :
  exists r, fit perfect_proba perfect_true 2 false = inr r
            /\ obs r = 4%Z
            /\ sum (Table.size (table r)) = obs r
            /\ sum (Table.class0 (table r)) = class0 r
            /\ sum (Table.class1 (table r)) = class1 r.
Proof.
  apply (fit_sums_match_totals perfect_proba perfect_true 2).
  - concrete_valid.
  - lia.
  - right. concrete_distinct (1 # 10) (2 # 10).
Defined.

(** C1 as stated fails when all probabilities are equal and more than one
    bin is asked for: the quantile edges collapse to one, no category is
    left, every observation is dropped and the table is empty. *)
Lemma fit_sums_fail_constant_scores :
  valid_input [1 # 2; 1 # 2] [0; 1]%Z
  /\ exists r, fit [1 # 2; 1 # 2] [0; 1]%Z 10 false = inr r
               /\ obs r = 2%Z
               /\ sum (Table.size (table r)) = 0%Z
               /\ sum (Table.size (table r)) <> obs r.
Proof.
  split; [ concrete_valid | ].
  eexists. split; [ vm_compute; reflexivity | ].
  repeat split. discriminate.
Qed.

(** ** C2: the KS statistic *)

(** C2, as amended.  For every valid input whose probabilities take at least
    two different values, or with [bins = 1], [ks] is the [Series.max] of
    the [abs_difference] column: a finite value in [0,1] that occurs in the
    column and that no entry exceeds. *)
Theorem fit_ks_is_max_in_unit (y_proba : list Q) (y_true : list Z) (bins : nat) :
  valid_input y_proba y_true ->
  (1 <= bins)%nat ->
  bins = 1%nat \/ distinct_values y_proba ->
  exists r m, fit y_proba y_true bins false = inr r
              /\ ks r = series_max (Table.abs_difference (table r))
              /\ ks r = Fin m
              /\ (0 <= m /\ m <= 1)
              /\ In (Fin m) (Table.abs_difference (table r))
              /\ Forall (fun d => fle d (Fin m)) (Table.abs_difference (table r)).
Proof.
  intros Hv Hb Hd. pose proof Hv as [Hlen [_ [Hy _]]].
  pose proof (valid_counts _ _ Hv) as Hn.
  destruct (series_max_unit (Table.abs_difference (fit_table y_proba y_true bins)))
    as [m [Hm [Hunit [Hin Hall]]]].
  - intros E. apply (f_equal (@length float)) in E.
    rewrite abs_difference_length in E by exact Hlen.
    pose proof (labels_nonempty y_proba bins Hb Hd) as HK.
    rewrite E in HK. simpl in HK. lia.
  - apply abs_difference_unit; assumption.
  - exists (fit_value y_proba y_true bins), m.
    split; [ apply fit_no_round, Hlen | ].
    unfold fit_value. cbn [ks table]. tauto.
Qed.

Lemma fit_ks_is_max_in_unit_witness :
  exists r m, fit perfect_proba perfect_true 2 false = inr r
              /\ ks r = series_max (Table.abs_difference (table r))
              /\ ks r = Fin m
              /\ (0 <= m /\ m <= 1)
              /\ In (Fin m) (Table.abs_difference (table r))
              /\ Forall (fun d => fle d (Fin m)) (Table.abs_difference (table r)).
Proof.
  apply (fit_ks_is_max_in_unit perfect_proba perfect_true 2).
  - concrete_valid.
  - lia.
  - right. concrete_distinct (1 # 10) (2 # 10).
Defined.

(** C2 as stated fails on constant scores: the [abs_difference] column is
    empty and its maximum is NaN, which is not in [0,1]. *)
Lemma fit_ks_nan_constant_scores :
  valid_input [1 # 2; 1 # 2] [0; 1]%Z
  /\ exists r, fit [1 # 2; 1 # 2] [0; 1]%Z 10 false = inr r
               /\ ks r = NaN
               /\ ~ unit_float (ks r).
Proof.
  split; [ concrete_valid | ].
  eexists. split; [ vm_compute; reflexivity | ].
  split; [ reflexivity | ]. simpl. tauto.
Qed.

(** ** C3: the cumulative columns *)

(** C3, as amended.  For every valid input whose probabilities take at least
    two different values, or with [bins = 1], the [cumulative_class0] and
    [cumulative_class1] columns are non-decreasing, are not empty, and
    their last entries are [class0] and [class1]. *)
Theorem fit_cumulative_columns (y_proba : list Q) (y_true : list Z) (bins : nat) :
  valid_input y_proba y_true ->
  (1 <= bins)%nat ->
  bins = 1%nat \/ distinct_values y_proba ->
  exists r, fit y_proba y_true bins false = inr r
            /\ nondecreasing (Table.cumulative_class0 (table r))
            /\ nondecreasing (Table.cumulative_class1 (table r))
            /\ Table.cumulative_class0 (table r) <> []
            /\ Table.cumulative_class1 (table r) <> []
            /\ (forall d, last (Table.cumulative_class0 (table r)) d = class0 r)
            /\ (forall d, last (Table.cumulative_class1 (table r)) d = class1 r).
Proof.
  intros Hv Hb Hd. pose proof Hv as [Hlen [_ [Hy _]]].
  exists (fit_value y_proba y_true bins).
  split; [ apply fit_no_round, Hlen | ].
  pose proof (class0_nonneg y_proba y_true bins Hlen Hy) as Hp0.
  pose proof (class1_nonneg y_proba y_true bins Hy) as Hp1.
  pose proof (class0_total y_proba y_true bins Hlen Hb Hd) as Ht0.
  pose proof (class1_total y_proba y_true bins Hlen Hb Hd) as Ht1.
  pose proof (labels_nonempty y_proba bins Hb Hd) as HK.
  assert (Hne0 : Table.class0 (fit_table y_proba y_true bins) <> []).
  { intros E. apply (f_equal (@length Z)) in E. revert E.
    unfold fit_table, build_table. cbn [Table.class0].
    rewrite map2_length_min, !length_map, length_seq. simpl. lia. }
  assert (Hne1 : Table.class1 (fit_table y_proba y_true bins) <> []).
  { intros E. apply (f_equal (@length Z)) in E. revert E.
    unfold fit_table, build_table. cbn [Table.class1].
    rewrite length_map, length_seq. simpl. lia. }
  assert (Hc0 : Table.cumulative_class0 (fit_table y_proba y_true bins)
                = cumsum_from 0 (Table.class0 (fit_table y_proba y_true bins)))
    by reflexivity.
  assert (Hc1 : Table.cumulative_class1 (fit_table y_proba y_true bins)
                = cumsum_from 0 (Table.class1 (fit_table y_proba y_true bins)))
    by reflexivity.
  unfold fit_value. cbn [table class0 class1]. rewrite Hc0, Hc1.
  repeat split.
  - apply cumsum_from_nondecreasing, Hp0.
  - apply cumsum_from_nondecreasing, Hp1.
  - intros E. apply (f_equal (@length Z)) in E.
    rewrite cumsum_from_length in E. apply Hne0.
    destruct (Table.class0 (fit_table y_proba y_true bins)); [ reflexivity | discriminate ].
  - intros E. apply (f_equal (@length Z)) in E.
    rewrite cumsum_from_length in E. apply Hne1.
    destruct (Table.class1 (fit_table y_proba y_true bins)); [ reflexivity | discriminate ].
  - intros d. rewrite cumsum_from_last by exact Hne0. rewrite Ht0. lia.
  - intros d. rewrite cumsum_from_last by exact Hne1. rewrite Ht1. lia.
Qed.

Lemma fit_cumulative_columns_witness :
  exists r, fit perfect_proba perfect_true 2 false = inr r
            /\ nondecreasing (Table.cumulative_class0 (table r))
            /\ nondecreasing (Table.cumulative_class1 (table r))
            /\ Table.cumulative_class0 (table r) <> []
            /\ Table.cumulative_class1 (table r) <> []
            /\ (forall d, last (Table.cumulative_class0 (table r)) d = class0 r)
            /\ (forall d, last (Table.cumulative_class1 (table r)) d = class1 r).
Proof.
  apply (fit_cumulative_columns perfect_proba perfect_true 2).
  - concrete_valid.
  - lia.
  - right. concrete_distinct (1 # 10) (2 # 10).
Defined.

(** C3 as stated fails on constant scores: the cumulative columns are
    empty, so there is no last bin that reaches the class counts. *)
Lemma fit_cumulative_empty_constant_scores :
  valid_input [1 # 2; 1 # 2] [0; 1]%Z
  /\ exists r, fit [1 # 2; 1 # 2] [0; 1]%Z 10 false = inr r
               /\ Table.cumulative_class0 (table r) = []
               /\ Table.cumulative_class1 (table r) = []
               /\ class0 r = 1%Z /\ class1 r = 1%Z
               /\ last (Table.cumulative_class0 (table r)) 0%Z <> class0 r
               /\ last (Table.cumulative_class1 (table r)) 0%Z <> class1 r.
Proof.
  split; [ concrete_valid | ].
  eexists. split; [ vm_compute; reflexivity | ].
  repeat split; discriminate.
Qed.

(** ** C4: labels of one class *)



(** ** C5: [round_range] *)

(** C5 fails on the code.  With [round_range=True] the call of
    [Series.apply] passes [axis=1] on to the one-argument lambda, so [fit]
    raises [TypeError] and returns no result at all, where the claim asks
    for a table with rounded interval boundaries. *)
Theorem fit_round_range_raises :
  fit perfect_proba perfect_true 2 true = inl TypeError.
Proof. vm_compute. reflexivity. Qed.

(** ** C6: arrays of different lengths *)



(** On two Series of one length the aligned table is the positional one. *)
Lemma reindex_same (y : list Z) : reindex (length y) y = y.
Proof.
  unfold reindex. rewrite firstn_all, Nat.sub_diag. apply app_nil_r.
Qed.

Lemma fit_series_same_length (y_proba : list Q) (y_true : list Z) (bins : nat)
      (round_range : bool) :
  length y_proba = length y_true ->
  fit_series y_proba y_true bins round_range = fit y_proba y_true bins round_range.
Proof.
  intros Hlen. unfold fit_series, fit.
  rewrite Hlen, reindex_same, Nat.eqb_refl. reflexivity.
Qed.


(** ** C7: one bin *)

(** C7.  For every valid input, [bins = 1] gives a table of one bin that
    holds all observations; its [abs_difference] is 0 and [ks] is 0. *)
Theorem fit_one_bin (y_proba : list Q) (y_true : list Z) :
  valid_input y_proba y_true ->
  exists r, fit y_proba y_true 1 false = inr r
            /\ obs r = Z.of_nat (length y_proba)
            /\ Table.bin (table r) = [1%Z]
            /\ Table.size (table r) = [obs r]
            /\ Table.class0 (table r) = [class0 r]
            /\ Table.class1 (table r) = [class1 r]
            /\ Table.abs_difference (table r) = [Fin 0]
            /\ ks r = Fin 0.
Proof.
  intros Hv. pose proof Hv as [Hlen _].
  pose proof (valid_counts _ _ Hv) as Hn.
  exists (fit_value y_proba y_true 1).
  split; [ apply fit_no_round, Hlen | ].
  assert (Hb : (1 <= 1)%nat) by lia.
  pose proof (size_total y_proba y_true 1 Hlen Hb (or_introl eq_refl)) as Hs.
  pose proof (class1_total y_proba y_true 1 Hlen Hb (or_introl eq_refl)) as H1.
  assert (HK : length (format_labels (qcut_bins y_proba 1)) = 1%nat).
  { rewrite format_labels_length, (qcut_bins_one y_proba 1 eq_refl). reflexivity. }
  unfold fit_value, fit_table, build_table in *.
  cbn [obs class0 class1 ks table Table.bin Table.size Table.class0 Table.class1
       Table.abs_difference] in *.
  rewrite HK in *. cbn [seq map sum fold_right] in Hs, H1.
  cbn [seq map]. rewrite Z.add_0_r in Hs, H1. rewrite Hs, H1.
  unfold map2, cumsum. cbn [combine map fst snd cumsum_from].
  rewrite !Z.add_0_l, !div_self by lia.
  repeat split; try reflexivity; f_equal; lia.
Qed.

Lemma fit_one_bin_witness :
  exists r, fit perfect_proba perfect_true 1 false = inr r
            /\ obs r = 4%Z
            /\ Table.bin (table r) = [1%Z]
            /\ Table.size (table r) = [obs r]
            /\ Table.class0 (table r) = [class0 r]
            /\ Table.class1 (table r) = [class1 r]
            /\ Table.abs_difference (table r) = [Fin 0]
            /\ ks r = Fin 0.
Proof.
  apply (fit_one_bin perfect_proba perfect_true).
  concrete_valid.
Defined.

(** ** C9: perfect separation *)

(** C9.  Probabilities [0.1, 0.2, 0.8, 0.9] with labels [0, 0, 1, 1] and
    [bins = 2] give two bins of size 2, the first with class 0 only, the
    second with class 1 only, and [ks = 1]. *)
Theorem fit_perfect_separation :
  exists r, fit perfect_proba perfect_true 2 false = inr r
            /\ Table.bin (table r) = [1; 2]%Z
            /\ Table.size (table r) = [2; 2]%Z
            /\ Table.class0 (table r) = [2; 0]%Z
            /\ Table.class1 (table r) = [0; 2]%Z
            /\ Table.abs_difference (table r) = [Fin 1; Fin 0]
            /\ ks r = Fin 1.
Proof.
  eexists. split; [ vm_compute; reflexivity | ].
  repeat split.
Qed.

(** ** C10: the remainder columns *)

(** C10.  For arrays of one length [fit] returns a result, and in every
    result of [fit] the three remainder columns have one entry per bin and
    [remainder_class0 + remainder_class1 = remainder_total] bin by bin. *)
Theorem fit_remainders_decompose (y_proba : list Q) (y_true : list Z) (bins : nat) :
  length y_proba = length y_true ->
  (exists r, fit y_proba y_true bins false = inr r)
  /\ forall round_range r,
      fit y_proba y_true bins round_range = inr r ->
      length (Table.remainder_class0 (table r)) = length (Table.bin (table r))
      /\ length (Table.remainder_class1 (table r)) = length (Table.bin (table r))
      /\ length (Table.remainder_total (table r)) = length (Table.bin (table r))
      /\ map2 Z.add (Table.remainder_class0 (table r))
                    (Table.remainder_class1 (table r))
         = Table.remainder_total (table r).
Proof.
  intros Hlen. split.
  - exists (fit_value y_proba y_true bins). apply fit_no_round, Hlen.
  - intros rr r Hr. apply fit_returns in Hr. destruct Hr as [_ ->].
    unfold fit_value, fit_table, build_table.
    cbn [table Table.bin Table.remainder_class0 Table.remainder_class1
         Table.remainder_total].
    set (cats := seq 0 (length (format_labels (qcut_bins y_proba bins)))).
    set (size := map (group_size (map (code_of (qcut_bins y_proba bins)) y_proba) y_true) cats).
    set (cl1 := map (group_sum (map (code_of (qcut_bins y_proba bins)) y_proba) y_true) cats).
    assert (Hsc : length size = length cl1)
      by (unfold size, cl1; rewrite !length_map; reflexivity).
    assert (Hcats : length size = length (map Z.of_nat (seq 1 (length (format_labels (qcut_bins y_proba bins))))))
      by (unfold size, cats; rewrite !length_map, !length_seq; reflexivity).
    rewrite <- Hcats, !remainder_length, map2_length by exact Hsc.
    repeat split; try lia.
    rewrite remainder_sub by exact Hsc.
    apply map2_sub_add. rewrite !remainder_length. exact Hsc.
Qed.

Lemma fit_remainders_decompose_witness :
  (exists r, fit perfect_proba perfect_true 2 false = inr r)
  /\ forall round_range r,
      fit perfect_proba perfect_true 2 round_range = inr r ->
      length (Table.remainder_class0 (table r)) = length (Table.bin (table r))
      /\ length (Table.remainder_class1 (table r)) = length (Table.bin (table r))
      /\ length (Table.remainder_total (table r)) = length (Table.bin (table r))
      /\ map2 Z.add (Table.remainder_class0 (table r))
                    (Table.remainder_class1 (table r))
         = Table.remainder_total (table r).
Proof.
  apply (fit_remainders_decompose perfect_proba perfect_true 2).
  reflexivity.
Defined.

(** ** C8: the bins cover the observations *)

Lemma nth_map_seq {A : Type} (f : nat -> A) (K k : nat) (d : A) :
  (k < K)%nat -> nth k (map f (seq 0 K)) d = f k.
Proof.
  intros Hk. rewrite (nth_indep _ d (f 0%nat)) by (rewrite length_map, length_seq; lia).
  rewrite map_nth, seq_nth by lia. reflexivity.
Qed.





(** * Further properties of [fit] *)

Ltac concrete_binary :=
  repeat (constructor; [ (left; reflexivity) || (right; reflexivity) | ]);
  constructor.

(** ** The columns as functions of the category *)

Section Rows.

Variable y_proba : list Q.
Variable y_true : list Z.
Variable bins : nat.

Lemma size_column :
  Table.size (fit_table y_proba y_true bins)
  = map (bin_size y_proba y_true bins) (seq 0 (n_bins y_proba bins)).
Proof. reflexivity. Qed.

Lemma class1_column :
  Table.class1 (fit_table y_proba y_true bins)
  = map (bin_ones y_proba y_true bins) (seq 0 (n_bins y_proba bins)).
Proof. reflexivity. Qed.

Lemma class0_column :
  Table.class0 (fit_table y_proba y_true bins)
  = map (fun k => bin_size y_proba y_true bins k - bin_ones y_proba y_true bins k)%Z
        (seq 0 (n_bins y_proba bins)).
Proof.
  unfold fit_table, build_table. cbn [Table.class0].
  rewrite map2_map_same. reflexivity.
Qed.

Lemma odds_column :
  Table.odds (fit_table y_proba y_true bins)
  = map (fun k => div (bin_size y_proba y_true bins k - bin_ones y_proba y_true bins k)
                      (bin_ones y_proba y_true bins k))
        (seq 0 (n_bins y_proba bins)).
Proof.
  change (Table.odds (fit_table y_proba y_true bins))
    with (map2 div (Table.class0 (fit_table y_proba y_true bins))
                   (Table.class1 (fit_table y_proba y_true bins))).
  rewrite class0_column, class1_column, map2_map_same. reflexivity.
Qed.

Lemma class0_rate_column :
  Table.class0_rate (fit_table y_proba y_true bins)
  = map (fun k => div (bin_size y_proba y_true bins k - bin_ones y_proba y_true bins k)
                      (bin_size y_proba y_true bins k))
        (seq 0 (n_bins y_proba bins)).
Proof.
  change (Table.class0_rate (fit_table y_proba y_true bins))
    with (map2 div (Table.class0 (fit_table y_proba y_true bins))
                   (Table.size (fit_table y_proba y_true bins))).
  rewrite class0_column, size_column, map2_map_same. reflexivity.
Qed.

Lemma class1_rate_column :
  Table.class1_rate (fit_table y_proba y_true bins)
  = map (fun k => div (bin_ones y_proba y_true bins k) (bin_size y_proba y_true bins k))
        (seq 0 (n_bins y_proba bins)).
Proof.
  change (Table.class1_rate (fit_table y_proba y_true bins))
    with (map2 div (Table.class1 (fit_table y_proba y_true bins))
                   (Table.size (fit_table y_proba y_true bins))).
  rewrite class1_column, size_column, map2_map_same. reflexivity.
Qed.

Lemma bin_size_nonneg (k : nat) : (0 <= bin_size y_proba y_true bins k)%Z.
Proof. unfold bin_size, group_size. lia. Qed.

Lemma bin_ones_bounds (k : nat) :
  Forall binary y_true ->
  (0 <= bin_ones y_proba y_true bins k <= bin_size y_proba y_true bins k)%Z.
Proof. intros Hy. apply group_sum_bounds, Hy. Qed.

(** The table is rectangular: every column has one entry per category. *)
Lemma fit_table_rectangular :
  rectangular (fit_table y_proba y_true bins) (n_bins y_proba bins).
Proof.
  unfold rectangular.
  rewrite class0_rate_column, class1_rate_column, odds_column.
  unfold fit_table, build_table, cumsum, n_bins.
  cbn [Table.bin Table.range Table.size Table.class0 Table.class1
       Table.remainder_total Table.remainder_class0 Table.remainder_class1
       Table.cumulative_class0 Table.cumulative_class1 Table.abs_difference].
  repeat rewrite ?remainder_length, ?length_map, ?map2_length_min,
    ?cumsum_from_length, ?length_seq.
  repeat split; lia.
Qed.

(** With [round_range=True] the lambda is only reached when the table has a
    row. *)
Lemma fit_round :
  length y_proba = length y_true ->
  fit y_proba y_true bins true
  = match format_labels (qcut_bins y_proba bins) with
    | [] => inr (fit_value y_proba y_true bins)
    | _ :: _ => inl TypeError
    end.
Proof.
  intros Hlen. apply Nat.eqb_eq in Hlen.
  unfold fit, qcut. rewrite Hlen. cbn [negb].
  unfold build_table at 1. cbn [Table.range].
  unfold fit_value, fit_table.
  destruct (format_labels (qcut_bins y_proba bins)); reflexivity.
Qed.

End Rows.

(** ** When the quantile edges collapse *)

Section Collapse.

Variable x : list Q.

(** Every quantile lies between the lowest and the highest value. *)
Lemma quantile_bounds (q : nat) :
  Forall (fun e => nth 0 (sort x) 0 <= e /\ e <= nth (length x - 1) (sort x) 0)
         (quantile x (linspace01 q)).
Proof.
  unfold quantile. apply Forall_map.
  eapply Forall_impl; [ | apply linspace01_range ].
  intros a [Ha0 Ha1]. simpl.
  assert (H0 : get_score (sort x) 0 = nth 0 (sort x) 0)
    by (apply get_score_first; reflexivity).
  assert (H1 : get_score (sort x) 1 = nth (length x - 1) (sort x) 0)
    by (rewrite get_score_last by reflexivity; rewrite sort_length; reflexivity).
  rewrite <- H0, <- H1.
  split; apply get_score_mono; try apply sort_sorted; lra.
Qed.

Lemma constant_min_max :
  ~ distinct_values x ->
  nth 0 (sort x) 0 == nth (length x - 1) (sort x) 0.
Proof.
  intros Hnd. destruct x as [ | h t] eqn:E; [ reflexivity | ]. rewrite <- E in *.
  assert (Hlen : (0 < length (sort x))%nat) by (rewrite sort_length, E; simpl; lia).
  destruct (Qeq_dec (nth 0 (sort x) 0) (nth (length x - 1) (sort x) 0))
    as [Heq | Hne]; [ exact Heq | ].
  exfalso. apply Hnd.
  exists (nth 0 (sort x) 0), (nth (length x - 1) (sort x) 0).
  repeat split; try exact Hne; apply sort_In, nth_In; rewrite ?sort_length in *; lia.
Qed.

Lemma unique_collapse (l : list Q) :
  (forall a b, In a l -> In b l -> a == b) -> (length (unique l) <= 1)%nat.
Proof.
  destruct l as [ | v r]; simpl; intros Hall; [ lia | ].
  assert (Hnone : filter (fun w => negb (Qeq_bool v w)) (unique r) = []).
  { destruct (filter (fun w => negb (Qeq_bool v w)) (unique r)) as [ | w ws] eqn:E;
      [ reflexivity | exfalso ].
    assert (Hw : In w (filter (fun w => negb (Qeq_bool v w)) (unique r)))
      by (rewrite E; left; reflexivity).
    apply filter_In in Hw. destruct Hw as [Hw Hne].
    apply negb_true_iff, Qeq_bool_false in Hne. apply Hne.
    apply Hall; [ left; reflexivity | right; apply unique_In, Hw ]. }
  rewrite Hnone. simpl. lia.
Qed.

(** No category is left when [bins = 0], and when [bins >= 2] and all values
    are equal. *)
Lemma no_bins (q : nat) :
  q = 0%nat \/ ((2 <= q)%nat /\ ~ distinct_values x) ->
  n_bins x q = 0%nat.
Proof.
  unfold n_bins. rewrite format_labels_length. unfold qcut_bins.
  intros [-> | [Hq Hnd]].
  - pose proof (drop_duplicates_length (quantile x (linspace01 0))) as H.
    rewrite quantile_length in H. lia.
  - unfold drop_duplicates.
    pose proof (unique_collapse (quantile x (linspace01 q))) as Hu.
    rewrite quantile_length.
    assert (Hone : (length (unique (quantile x (linspace01 q))) <= 1)%nat).
    { apply Hu. intros a b Ha Hb.
      pose proof (quantile_bounds q) as Hbd. rewrite Forall_forall in Hbd.
      pose proof (constant_min_max Hnd) as Hmm.
      destruct (Hbd a Ha), (Hbd b Hb). lra. }
    destruct (Nat.ltb_spec (length (unique (quantile x (linspace01 q)))) (S q));
      [ | lia ].
    destruct (Nat.eqb_spec (S q) 2); [ lia | ]. simpl. lia.
Qed.

End Collapse.

(** ** Errors and the [round_range] flag *)

(** X2.  With [round_range=True], non-empty arrays of one length, [bins >= 1] and
    probabilities that take two different values (or [bins = 1]), [fit]
    raises [TypeError]: the table has a row, and the lambda is called with
    the keyword [axis]. *)
Theorem fit_round_range_type_error (y_proba : list Q) (y_true : list Z) (bins : nat) :
  length y_proba = length y_true ->
  y_proba <> [] ->
  (1 <= bins)%nat ->
  bins = 1%nat \/ distinct_values y_proba ->
  fit y_proba y_true bins true = inl TypeError.
Proof.
  intros Hlen _ Hb Hd. rewrite fit_round by exact Hlen.
  pose proof (labels_nonempty y_proba bins Hb Hd) as HK.
  destruct (format_labels (qcut_bins y_proba bins)); [ simpl in HK; lia | reflexivity ].
Qed.

Lemma fit_round_range_type_error_witness :
  fit [1 # 10; 9 # 10] [0; 1]%Z 1 true = inl TypeError.
Proof.
  apply (fit_round_range_type_error [1 # 10; 9 # 10] [0; 1]%Z 1).
  - reflexivity.
  - discriminate.
  - lia.
  - left. reflexivity.
Defined.

(** ** Tables without a bin *)

Lemma empty_table (y_proba : list Q) (y_true : list Z) (bins : nat) :
  n_bins y_proba bins = 0%nat ->
  Table.bin (fit_table y_proba y_true bins) = []
  /\ Table.size (fit_table y_proba y_true bins) = []
  /\ Table.abs_difference (fit_table y_proba y_true bins) = []
  /\ format_labels (qcut_bins y_proba bins) = [].
Proof.
  intros H0. pose proof (fit_table_rectangular y_proba y_true bins) as Hr.
  unfold rectangular in Hr. rewrite H0 in Hr.
  repeat split; apply length_zero_iff_nil; solve [ tauto | exact H0 ].
Qed.

(** X5.  With [bins >= 2] and non-empty arrays of one length, the table of [fit] has
    no row exactly when the probabilities do not take two different
    values; in that case [ks] is NaN and [round_range=True] returns the
    same result instead of raising. *)
Theorem fit_empty_table_iff (y_proba : list Q) (y_true : list Z) (bins : nat) :
  length y_proba = length y_true ->
  y_proba <> [] ->
  (2 <= bins)%nat ->
  exists r, fit y_proba y_true bins false = inr r
            /\ (Table.bin (table r) = [] <-> ~ distinct_values y_proba)
            /\ (~ distinct_values y_proba ->
                Table.size (table r) = []
                /\ ks r = NaN
                /\ fit y_proba y_true bins true = inr r).
Proof.
  intros Hlen _ Hb. exists (fit_value y_proba y_true bins).
  split; [ apply fit_no_round, Hlen | ].
  unfold fit_value. cbn [table ks]. split; [ split | ].
  - intros Hnil Hd.
    pose proof (labels_nonempty y_proba bins ltac:(lia) (or_intror Hd)) as HK.
    pose proof (fit_table_rectangular y_proba y_true bins) as [Hr _].
    rewrite Hnil in Hr. unfold n_bins in Hr. simpl in Hr. lia.
  - intros Hnd.
    apply (empty_table y_proba y_true bins),
      (no_bins y_proba bins (or_intror (conj Hb Hnd))).
  - intros Hnd.
    destruct (empty_table y_proba y_true bins
                (no_bins y_proba bins (or_intror (conj Hb Hnd))))
      as [_ [Hs [Ha Hl]]].
    split; [ exact Hs | split; [ rewrite Ha; reflexivity | ] ].
    rewrite fit_round by exact Hlen. rewrite Hl. reflexivity.
Qed.

Lemma fit_empty_table_iff_witness :
  exists r, fit [1 # 2; 1 # 2; 2 # 4] [0; 1; 1]%Z 10 false = inr r
            /\ (Table.bin (table r) = []
                <-> ~ distinct_values [1 # 2; 1 # 2; 2 # 4])
            /\ (~ distinct_values [1 # 2; 1 # 2; 2 # 4] ->
                Table.size (table r) = []
                /\ ks r = NaN
                /\ fit [1 # 2; 1 # 2; 2 # 4] [0; 1; 1]%Z 10 true = inr r).
Proof.
  apply (fit_empty_table_iff [1 # 2; 1 # 2; 2 # 4] [0; 1; 1]%Z 10).
  - reflexivity.
  - discriminate.
  - lia.
Defined.

(** ** The shape of the table *)

Lemma n_bins_le (y_proba : list Q) (bins : nat) : (n_bins y_proba bins <= bins)%nat.
Proof.
  unfold n_bins. rewrite format_labels_length.
  pose proof (qcut_bins_length y_proba bins). lia.
Qed.

(** X6.  In every result of [fit] all fourteen columns of the table have
    the same number of entries, one per bin, and there are never more bins
    than [bins]. *)
Theorem fit_rectangular (y_proba : list Q) (y_true : list Z) (bins : nat)
        (round_range : bool) (r : test) :
  fit y_proba y_true bins round_range = inr r ->
  rectangular (table r) (length (Table.bin (table r)))
  /\ (length (Table.bin (table r)) <= bins)%nat.
Proof.
  intros H. apply fit_returns in H. destruct H as [_ ->].
  unfold fit_value. cbn [table].
  pose proof (fit_table_rectangular y_proba y_true bins) as Hr.
  pose proof Hr as [Hb _]. rewrite Hb.
  split; [ exact Hr | apply n_bins_le ].
Qed.

Lemma fit_rectangular_witness :
  rectangular (table (fit_value perfect_proba perfect_true 3))
              (length (Table.bin (table (fit_value perfect_proba perfect_true 3))))
  /\ (length (Table.bin (table (fit_value perfect_proba perfect_true 3))) <= 3)%nat.
Proof.
  apply (fit_rectangular perfect_proba perfect_true 3 false).
  vm_compute. reflexivity.
Defined.

(** ** Counts per bin *)

(** X7.  In every result of [fit] the [class0] and [class1] columns add up
    to the [size] column bin by bin and no [size] is negative; with labels
    0 and 1 no [class0] and no [class1] entry is negative either. *)
Theorem fit_class_split (y_proba : list Q) (y_true : list Z) (bins : nat)
        (round_range : bool) (r : test) :
  fit y_proba y_true bins round_range = inr r ->
  map2 Z.add (Table.class0 (table r)) (Table.class1 (table r)) = Table.size (table r)
  /\ Forall (fun s => 0 <= s)%Z (Table.size (table r))
  /\ (Forall binary y_true ->
      Forall (fun c => 0 <= c)%Z (Table.class0 (table r))
      /\ Forall (fun c => 0 <= c)%Z (Table.class1 (table r))).
Proof.
  intros H. apply fit_returns in H. destruct H as [Hlen ->].
  unfold fit_value. cbn [table].
  split; [ | split ].
  - unfold fit_table, build_table. cbn [Table.class0 Table.class1 Table.size].
    apply map2_sub_add. rewrite !length_map. reflexivity.
  - rewrite size_column. apply Forall_map, Forall_forall. intros k _.
    apply bin_size_nonneg.
  - intros Hy. split;
      [ apply class0_nonneg; assumption | apply class1_nonneg; assumption ].
Qed.

Lemma fit_class_split_witness :
  map2 Z.add (Table.class0 (table (fit_value perfect_proba perfect_true 3)))
             (Table.class1 (table (fit_value perfect_proba perfect_true 3)))
  = Table.size (table (fit_value perfect_proba perfect_true 3))
  /\ Forall (fun s => 0 <= s)%Z
            (Table.size (table (fit_value perfect_proba perfect_true 3)))
  /\ (Forall binary perfect_true ->
      Forall (fun c => 0 <= c)%Z
             (Table.class0 (table (fit_value perfect_proba perfect_true 3)))
      /\ Forall (fun c => 0 <= c)%Z
                (Table.class1 (table (fit_value perfect_proba perfect_true 3)))).
Proof.
  apply (fit_class_split perfect_proba perfect_true 3 false).
  vm_compute. reflexivity.
Defined.

(** ** Odds and rates *)

Lemma div_nonneg (a b : Z) :
  (0 <= a)%Z -> (0 < b)%Z -> exists q, div a b = Fin q /\ 0 <= q.
Proof.
  intros Ha Hb. unfold div.
  destruct (Z.eqb_spec b 0) as [E | _]; [ lia | ].
  eexists. split; [ reflexivity | ]. rewrite Qred_correct.
  apply Qle_shift_div_l.
  - change 0 with (inject_Z 0). rewrite <- Zlt_Qlt. exact Hb.
  - rewrite Qmult_0_l. change 0 with (inject_Z 0). rewrite <- Zle_Qle. exact Ha.
Qed.

Lemma div_by_zero (a : Z) :
  div a 0 = if (a =? 0)%Z then NaN else if (0 <? a)%Z then PInf else NInf.
Proof. reflexivity. Qed.

(** X8.  With labels 0 and 1, the [odds] of a bin are NaN when the bin is
    empty, plus infinity when it holds observations but none of class 1,
    and a finite number that is not negative otherwise; minus infinity
    never occurs. *)
Theorem fit_odds (y_proba : list Q) (y_true : list Z) (bins : nat)
        (round_range : bool) (r : test) (k : nat) :
  fit y_proba y_true bins round_range = inr r ->
  Forall binary y_true ->
  (k < length (Table.bin (table r)))%nat ->
  (nth k (Table.size (table r)) 0%Z = 0%Z -> nth k (Table.odds (table r)) NInf = NaN)
  /\ ((0 < nth k (Table.size (table r)) 0)%Z ->
      nth k (Table.class1 (table r)) 0%Z = 0%Z ->
      nth k (Table.odds (table r)) NInf = PInf)
  /\ ((0 < nth k (Table.class1 (table r)) 0)%Z ->
      exists q, nth k (Table.odds (table r)) NInf = Fin q /\ 0 <= q)
  /\ nth k (Table.odds (table r)) NInf <> NInf.
Proof.
  intros H Hy Hk. apply fit_returns in H. destruct H as [Hlen ->].
  unfold fit_value in *. cbn [table] in *.
  pose proof (fit_table_rectangular y_proba y_true bins) as [Hb _].
  rewrite Hb in Hk.
  rewrite size_column, class1_column, odds_column, !nth_map_seq by exact Hk.
  pose proof (bin_ones_bounds y_proba y_true bins k Hy) as Hc.
  set (s := bin_size y_proba y_true bins k) in *.
  set (c := bin_ones y_proba y_true bins k) in *.
  assert (Hcases : c = 0%Z \/ (0 < c)%Z) by lia.
  destruct Hcases as [-> | Hpos].
  - rewrite Z.sub_0_r, div_by_zero.
    destruct (Z.eqb_spec s 0) as [-> | Hs].
    + repeat split; try reflexivity; try lia; discriminate.
    + destruct (Z.ltb_spec 0 s); [ | lia ].
      repeat split; try reflexivity; try lia; discriminate.
  - destruct (div_nonneg (s - c) c) as [q [Hq Hq0]]; [ lia | lia | ].
    rewrite Hq. repeat split; try lia; try discriminate.
    intros _. exists q. split; [ reflexivity | exact Hq0 ].
Qed.

Lemma fit_odds_witness :
  (nth 0 (Table.size (table (fit_value perfect_proba perfect_true 2))) 0%Z = 0%Z ->
   nth 0 (Table.odds (table (fit_value perfect_proba perfect_true 2))) NInf = NaN)
  /\ ((0 < nth 0 (Table.size (table (fit_value perfect_proba perfect_true 2))) 0)%Z ->
      nth 0 (Table.class1 (table (fit_value perfect_proba perfect_true 2))) 0%Z = 0%Z ->
      nth 0 (Table.odds (table (fit_value perfect_proba perfect_true 2))) NInf = PInf)
  /\ ((0 < nth 0 (Table.class1 (table (fit_value perfect_proba perfect_true 2))) 0)%Z ->
      exists q, nth 0 (Table.odds (table (fit_value perfect_proba perfect_true 2))) NInf
                = Fin q /\ 0 <= q)
  /\ nth 0 (Table.odds (table (fit_value perfect_proba perfect_true 2))) NInf <> NInf.
Proof.
  apply (fit_odds perfect_proba perfect_true 2 false).
  - vm_compute. reflexivity.
  - concrete_binary.
  - simpl. lia.
Defined.

(** X9.  With labels 0 and 1, [class0_rate] and [class1_rate] of an empty
    bin are both NaN; in any other bin they are finite, not negative, and
    add up to 1. *)
Theorem fit_rates (y_proba : list Q) (y_true : list Z) (bins : nat)
        (round_range : bool) (r : test) (k : nat) :
  fit y_proba y_true bins round_range = inr r ->
  Forall binary y_true ->
  (k < length (Table.bin (table r)))%nat ->
  (nth k (Table.size (table r)) 0%Z = 0%Z ->
   nth k (Table.class0_rate (table r)) PInf = NaN
   /\ nth k (Table.class1_rate (table r)) PInf = NaN)
  /\ ((0 < nth k (Table.size (table r)) 0)%Z ->
      exists a b, nth k (Table.class0_rate (table r)) PInf = Fin a
                  /\ nth k (Table.class1_rate (table r)) PInf = Fin b
                  /\ 0 <= a /\ 0 <= b /\ a + b == 1).
Proof.
  intros H Hy Hk. apply fit_returns in H. destruct H as [Hlen ->].
  unfold fit_value in *. cbn [table] in *.
  pose proof (fit_table_rectangular y_proba y_true bins) as [Hb _].
  rewrite Hb in Hk.
  rewrite size_column, class0_rate_column, class1_rate_column, !nth_map_seq
    by exact Hk.
  pose proof (bin_ones_bounds y_proba y_true bins k Hy) as Hc.
  set (s := bin_size y_proba y_true bins k) in *.
  set (c := bin_ones y_proba y_true bins k) in *.
  split.
  - intros Hs. rewrite Hs in *. assert (c = 0%Z) as -> by lia.
    split; reflexivity.
  - intros Hs.
    exists (Qred (inject_Z (s - c) / inject_Z s)), (Qred (inject_Z c / inject_Z s)).
    assert (Hs' : 0 < inject_Z s)
      by (change 0 with (inject_Z 0); rewrite <- Zlt_Qlt; exact Hs).
    assert (Hne : ~ inject_Z s == 0) by lra.
    unfold div. destruct (Z.eqb_spec s 0) as [E | _]; [ lia | ].
    split; [ reflexivity | split; [ reflexivity | ] ].
    rewrite !Qred_correct.
    split; [ | split ].
    + apply Qle_shift_div_l; [ exact Hs' | ].
      rewrite Qmult_0_l. change 0 with (inject_Z 0). rewrite <- Zle_Qle. lia.
    + apply Qle_shift_div_l; [ exact Hs' | ].
      rewrite Qmult_0_l. change 0 with (inject_Z 0). rewrite <- Zle_Qle. lia.
    + unfold Z.sub. rewrite inject_Z_plus, inject_Z_opp. field. exact Hne.
Qed.

Lemma fit_rates_witness :
  (nth 1 (Table.size (table (fit_value perfect_proba perfect_true 3))) 0%Z = 0%Z ->
   nth 1 (Table.class0_rate (table (fit_value perfect_proba perfect_true 3))) PInf = NaN
   /\ nth 1 (Table.class1_rate (table (fit_value perfect_proba perfect_true 3))) PInf
      = NaN)
  /\ ((0 < nth 1 (Table.size (table (fit_value perfect_proba perfect_true 3))) 0)%Z ->
      exists a b,
        nth 1 (Table.class0_rate (table (fit_value perfect_proba perfect_true 3))) PInf
        = Fin a
        /\ nth 1 (Table.class1_rate (table (fit_value perfect_proba perfect_true 3))) PInf
           = Fin b
        /\ 0 <= a /\ 0 <= b /\ a + b == 1).
Proof.
  apply (fit_rates perfect_proba perfect_true 3 false).
  - vm_compute. reflexivity.
  - concrete_binary.
  - simpl. lia.
Defined.

(** ** Remainders and running sums *)

Lemma remainder_cumsum_from (S a : Z) (l : list Z) :
  map2 Z.add (map (fun c => S - c)%Z (prefix_from a l)) (cumsum_from a l)
  = map (fun c => S + c)%Z l.
Proof.
  revert a. induction l as [ | x l IH]; intros a; [ reflexivity | ].
  simpl prefix_from. simpl cumsum_from. simpl map. rewrite map2_cons, IH.
  f_equal. lia.
Qed.

Lemma remainder_cumsum (l : list Z) :
  map2 Z.add (remainder l) (cumsum l) = map (fun c => sum l + c)%Z l.
Proof.
  unfold remainder, cumsum. rewrite cumsum_shift. apply remainder_cumsum_from.
Qed.

(** X10.  In every result of [fit], for each class the remainder and the
    cumulative count of a bin overlap in that bin only: bin by bin
    [remainder_class0 + cumulative_class0] is the total of the [class0]
    column plus the bin's own [class0], and likewise for class 1. *)
Theorem fit_remainder_cumulative (y_proba : list Q) (y_true : list Z) (bins : nat)
        (round_range : bool) (r : test) :
  fit y_proba y_true bins round_range = inr r ->
  map2 Z.add (Table.remainder_class0 (table r)) (Table.cumulative_class0 (table r))
  = map (fun c => sum (Table.class0 (table r)) + c)%Z (Table.class0 (table r))
  /\ map2 Z.add (Table.remainder_class1 (table r)) (Table.cumulative_class1 (table r))
     = map (fun c => sum (Table.class1 (table r)) + c)%Z (Table.class1 (table r)).
Proof.
  intros H. apply fit_returns in H. destruct H as [_ ->].
  unfold fit_value, fit_table, build_table.
  cbn [table Table.remainder_class0 Table.remainder_class1 Table.cumulative_class0
       Table.cumulative_class1 Table.class0 Table.class1].
  split; apply remainder_cumsum.
Qed.

Lemma fit_remainder_cumulative_witness :
  map2 Z.add (Table.remainder_class0 (table (fit_value perfect_proba perfect_true 3)))
             (Table.cumulative_class0 (table (fit_value perfect_proba perfect_true 3)))
  = map (fun c => sum (Table.class0 (table (fit_value perfect_proba perfect_true 3)))
                  + c)%Z
        (Table.class0 (table (fit_value perfect_proba perfect_true 3)))
  /\ map2 Z.add (Table.remainder_class1 (table (fit_value perfect_proba perfect_true 3)))
                (Table.cumulative_class1 (table (fit_value perfect_proba perfect_true 3)))
     = map (fun c => sum (Table.class1 (table (fit_value perfect_proba perfect_true 3)))
                     + c)%Z
           (Table.class1 (table (fit_value perfect_proba perfect_true 3))).
Proof.
  apply (fit_remainder_cumulative perfect_proba perfect_true 3 false).
  vm_compute. reflexivity.
Defined.

Lemma sum_nonneg (l : list Z) : Forall (fun x => 0 <= x)%Z l -> (0 <= sum l)%Z.
Proof. induction 1; simpl; lia. Qed.

Lemma remainder_from_nonincreasing (S a : Z) (l : list Z) :
  Forall (fun x => 0 <= x)%Z l ->
  nonincreasing (map (fun c => S - c)%Z (prefix_from a l)).
Proof.
  intros Hl. revert a. induction Hl as [ | x l Hx Hl IH]; intros a;
    [ constructor | ].
  destruct l as [ | y l]; [ constructor | ].
  specialize (IH (a + x)%Z). simpl in *. constructor; [ lia | exact IH ].
Qed.

Lemma remainder_from_bounds (a : Z) (l : list Z) :
  Forall (fun x => 0 <= x)%Z l ->
  Forall (fun c => 0 <= c <= sum l)%Z (map (fun c => a + sum l - c)%Z (prefix_from a l)).
Proof.
  intros Hl. revert a. induction Hl as [ | x l Hx Hl IH]; intros a;
    [ constructor | ].
  pose proof (sum_nonneg l Hl) as Hs.
  simpl. constructor; [ lia | ].
  specialize (IH (a + x)%Z).
  rewrite (map_ext (fun c => a + (x + sum l) - c)%Z (fun c => a + x + sum l - c)%Z)
    by (intros; lia).
  eapply Forall_impl; [ | exact IH ]. simpl. intros c Hc. lia.
Qed.

Lemma remainder_nonincreasing (l : list Z) :
  Forall (fun x => 0 <= x)%Z l ->
  nonincreasing (remainder l) /\ Forall (fun c => 0 <= c <= sum l)%Z (remainder l).
Proof.
  intros Hl. unfold remainder. rewrite cumsum_shift. split.
  - apply remainder_from_nonincreasing, Hl.
  - rewrite (map_ext (fun c => sum l - c)%Z (fun c => 0 + sum l - c)%Z)
      by (intros; lia).
    apply remainder_from_bounds, Hl.
Qed.

(** X11.  In every result of [fit] the [remainder_total] column never goes
    up from one bin to the next and stays between 0 and the total of the
    [size] column; with labels 0 and 1 the same holds for
    [remainder_class0] and [remainder_class1] and their columns. *)
Theorem fit_remainders_nonincreasing (y_proba : list Q) (y_true : list Z) (bins : nat)
        (round_range : bool) (r : test) :
  fit y_proba y_true bins round_range = inr r ->
  (nonincreasing (Table.remainder_total (table r))
   /\ Forall (fun c => 0 <= c <= sum (Table.size (table r)))%Z
             (Table.remainder_total (table r)))
  /\ (Forall binary y_true ->
      (nonincreasing (Table.remainder_class0 (table r))
       /\ Forall (fun c => 0 <= c <= sum (Table.class0 (table r)))%Z
                 (Table.remainder_class0 (table r)))
      /\ (nonincreasing (Table.remainder_class1 (table r))
          /\ Forall (fun c => 0 <= c <= sum (Table.class1 (table r)))%Z
                    (Table.remainder_class1 (table r)))).
Proof.
  intros H. apply fit_returns in H. destruct H as [Hlen ->].
  unfold fit_value. cbn [table].
  change (Table.remainder_total (fit_table y_proba y_true bins))
    with (remainder (Table.size (fit_table y_proba y_true bins))).
  change (Table.remainder_class0 (fit_table y_proba y_true bins))
    with (remainder (Table.class0 (fit_table y_proba y_true bins))).
  change (Table.remainder_class1 (fit_table y_proba y_true bins))
    with (remainder (Table.class1 (fit_table y_proba y_true bins))).
  split.
  - apply remainder_nonincreasing. rewrite size_column.
    apply Forall_map, Forall_forall. intros k _. apply bin_size_nonneg.
  - intros Hy. split; apply remainder_nonincreasing;
      [ apply class0_nonneg; assumption | apply class1_nonneg; assumption ].
Qed.

Lemma fit_remainders_nonincreasing_witness :
  (nonincreasing (Table.remainder_total (table (fit_value perfect_proba perfect_true 3)))
   /\ Forall (fun c => 0 <= c
                       <= sum (Table.size (table (fit_value perfect_proba perfect_true 3))))%Z
             (Table.remainder_total (table (fit_value perfect_proba perfect_true 3))))
  /\ (Forall binary perfect_true ->
      (nonincreasing
         (Table.remainder_class0 (table (fit_value perfect_proba perfect_true 3)))
       /\ Forall (fun c => 0 <= c
                           <= sum (Table.class0
                                     (table (fit_value perfect_proba perfect_true 3))))%Z
                 (Table.remainder_class0 (table (fit_value perfect_proba perfect_true 3))))
      /\ (nonincreasing
            (Table.remainder_class1 (table (fit_value perfect_proba perfect_true 3)))
          /\ Forall (fun c => 0 <= c
                              <= sum (Table.class1
                                        (table (fit_value perfect_proba perfect_true 3))))%Z
                    (Table.remainder_class1
                       (table (fit_value perfect_proba perfect_true 3))))).
Proof.
  apply (fit_remainders_nonincreasing perfect_proba perfect_true 3 false).
  vm_compute. reflexivity.
Defined.

(** ** The last bin *)

Lemma last_abs_diff (f g : Z -> float) (l1 l2 : list Z) (d : float) :
  length l1 = length l2 -> l1 <> [] ->
  last (map fabs (map2 fsub (map f l1) (map g l2))) d
  = fabs (fsub (f (last l1 0%Z)) (g (last l2 0%Z))).
Proof.
  revert l2. induction l1 as [ | x [ | x' l1] IH]; intros [ | y [ | y' l2]] Hlen Hne;
    try discriminate; try contradiction; [ reflexivity | ].
  specialize (IH (y' :: l2)).
  change (last (x :: x' :: l1) 0%Z) with (last (x' :: l1) 0%Z).
  change (last (y :: y' :: l2) 0%Z) with (last (y' :: l2) 0%Z).
  rewrite <- IH by (simpl in *; (lia || discriminate)). reflexivity.
Qed.

(** X13.  For every valid input with [bins >= 1] whose probabilities take
    two different values (or with [bins = 1]), the [abs_difference] of the
    last bin is 0: both cumulative counts have reached their class
    totals. *)
Theorem fit_abs_difference_last (y_proba : list Q) (y_true : list Z) (bins : nat) :
  valid_input y_proba y_true ->
  (1 <= bins)%nat ->
  bins = 1%nat \/ distinct_values y_proba ->
  exists r, fit y_proba y_true bins false = inr r
            /\ Table.abs_difference (table r) <> []
            /\ forall d, last (Table.abs_difference (table r)) d = Fin 0.
Proof.
  intros Hv Hb Hd. pose proof Hv as [Hlen [_ [Hy _]]].
  pose proof (valid_counts _ _ Hv) as Hn.
  exists (fit_value y_proba y_true bins).
  split; [ apply fit_no_round, Hlen | ].
  unfold fit_value. cbn [table].
  pose proof (fit_table_rectangular y_proba y_true bins) as Hr.
  unfold rectangular in Hr.
  pose proof (labels_nonempty y_proba bins Hb Hd) as HK. fold (n_bins y_proba bins) in HK.
  assert (Hne : forall A (l : list A), length l = n_bins y_proba bins -> l <> []).
  { intros A l Hl E. rewrite E in Hl. simpl in Hl. lia. }
  split; [ apply Hne; tauto | ]. intros d.
  change (Table.abs_difference (fit_table y_proba y_true bins))
    with (map fabs
            (map2 fsub
               (map (fun c => div c (Z.of_nat (length y_proba) - sum y_true))
                    (cumsum_from 0 (Table.class0 (fit_table y_proba y_true bins))))
               (map (fun c => div c (sum y_true))
                    (cumsum_from 0 (Table.class1 (fit_table y_proba y_true bins)))))).
  rewrite last_abs_diff.
  - rewrite !cumsum_from_last by (apply Hne; tauto).
    rewrite (class0_total y_proba y_true bins Hlen Hb Hd).
    rewrite (class1_total y_proba y_true bins Hlen Hb Hd).
    rewrite !Z.add_0_l, !div_self by lia. reflexivity.
  - rewrite !cumsum_from_length. destruct Hr as [_ [_ [_ [H0 [H1 _]]]]]. lia.
  - apply Hne. rewrite cumsum_from_length. tauto.
Qed.

Lemma fit_abs_difference_last_witness :
  exists r, fit perfect_proba perfect_true 3 false = inr r
            /\ Table.abs_difference (table r) <> []
            /\ forall d, last (Table.abs_difference (table r)) d = Fin 0.
Proof.
  apply (fit_abs_difference_last perfect_proba perfect_true 3).
  - concrete_valid.
  - lia.
  - right. concrete_distinct (1 # 10) (2 # 10).
Defined.

(** ** Running sums of the two classes *)

Lemma cumsum_from_add (a b : Z) (l1 l2 : list Z) :
  map2 Z.add (cumsum_from a l1) (cumsum_from b l2)
  = cumsum_from (a + b) (map2 Z.add l1 l2).
Proof.
  revert a b l2. induction l1 as [ | x l1 IH]; intros a b [ | y l2];
    try reflexivity.
  simpl cumsum_from. rewrite !map2_cons. simpl cumsum_from.
  rewrite IH. replace (a + x + (b + y))%Z with (a + b + (x + y))%Z by lia.
  reflexivity.
Qed.

(** X14.  In every result of [fit], [cumulative_class0] and
    [cumulative_class1] add up, bin by bin, to the running sum of the
    [size] column. *)
Theorem fit_cumulative_sizes (y_proba : list Q) (y_true : list Z) (bins : nat)
        (round_range : bool) (r : test) :
  fit y_proba y_true bins round_range = inr r ->
  map2 Z.add (Table.cumulative_class0 (table r)) (Table.cumulative_class1 (table r))
  = cumsum (Table.size (table r)).
Proof.
  intros H. apply fit_returns in H. destruct H as [_ ->].
  unfold fit_value, fit_table, build_table.
  cbn [table Table.cumulative_class0 Table.cumulative_class1 Table.size].
  unfold cumsum. rewrite cumsum_from_add, map2_sub_add; [ reflexivity | ].
  rewrite !length_map. reflexivity.
Qed.

Lemma fit_cumulative_sizes_witness :
  map2 Z.add (Table.cumulative_class0 (table (fit_value perfect_proba perfect_true 3)))
             (Table.cumulative_class1 (table (fit_value perfect_proba perfect_true 3)))
  = cumsum (Table.size (table (fit_value perfect_proba perfect_true 3))).
Proof.
  apply (fit_cumulative_sizes perfect_proba perfect_true 3 false).
  vm_compute. reflexivity.
Defined.

(** ** Exchanging the two classes *)

Section Flip.

Lemma Qabs_opp_eq (q : Q) : Qabs (- q) = Qabs q.
Proof. destruct q as [n d]. unfold Qabs, Qopp. simpl. rewrite Z.abs_opp. reflexivity. Qed.

Lemma fabs_fsub_sym (a b : float) : fabs (fsub a b) = fabs (fsub b a).
Proof.
  destruct a as [x | | | ], b as [y | | | ]; try reflexivity.
  change (Fin (Qabs (Qred (x - y))) = Fin (Qabs (Qred (y - x)))). f_equal.
  rewrite <- (Qabs_opp_eq (Qred (x - y))), <- Qred_opp.
  f_equal. apply Qred_complete. ring.
Qed.

Lemma abs_diff_swap (l1 l2 : list float) :
  map fabs (map2 fsub l1 l2) = map fabs (map2 fsub l2 l1).
Proof.
  revert l2. induction l1 as [ | a l1 IH]; intros [ | b l2]; try reflexivity.
  rewrite !map2_cons. simpl map. rewrite IH, fabs_fsub_sym. reflexivity.
Qed.

Lemma sum_flip (y : list Z) :
  sum (flip_labels y) = (Z.of_nat (length y) - sum y)%Z.
Proof.
  induction y as [ | v y IH]; [ reflexivity | ].
  change (sum (flip_labels (v :: y))) with ((1 - v) + sum (flip_labels y))%Z.
  change (sum (v :: y)) with (v + sum y)%Z.
  rewrite IH. simpl length. lia.
Qed.

Lemma group_size_flip (codes : list (option nat)) (y : list Z) (k : nat) :
  group_size codes (flip_labels y) k = group_size codes y k.
Proof.
  revert y. induction codes as [ | c codes IH]; intros [ | v y]; try reflexivity.
  change (flip_labels (v :: y)) with ((1 - v)%Z :: flip_labels y).
  rewrite !group_size_cons, IH. reflexivity.
Qed.

Lemma group_sum_flip (codes : list (option nat)) (y : list Z) (k : nat) :
  group_sum codes (flip_labels y) k
  = (group_size codes y k - group_sum codes y k)%Z.
Proof.
  revert y. induction codes as [ | c codes IH]; intros [ | v y]; try reflexivity.
  change (flip_labels (v :: y)) with ((1 - v)%Z :: flip_labels y).
  rewrite !group_sum_cons, !group_size_cons, IH.
  destruct (code_eqb c k); lia.
Qed.

Variable y_proba : list Q.
Variable y_true : list Z.
Variable bins : nat.
Hypothesis same_length : length y_proba = length y_true.

Lemma flip_size :
  Table.size (fit_table y_proba (flip_labels y_true) bins)
  = Table.size (fit_table y_proba y_true bins).
Proof.
  rewrite !size_column. apply map_ext. intros k. apply group_size_flip.
Qed.

Lemma flip_class1 :
  Table.class1 (fit_table y_proba (flip_labels y_true) bins)
  = Table.class0 (fit_table y_proba y_true bins).
Proof.
  rewrite class1_column, class0_column. apply map_ext. intros k.
  apply group_sum_flip.
Qed.

Lemma flip_class0 :
  Table.class0 (fit_table y_proba (flip_labels y_true) bins)
  = Table.class1 (fit_table y_proba y_true bins).
Proof.
  rewrite class1_column, class0_column. apply map_ext. intros k.
  unfold bin_size, bin_ones. rewrite group_size_flip, group_sum_flip. lia.
Qed.

Lemma abs_difference_column (y : list Z) :
  Table.abs_difference (fit_table y_proba y bins)
  = map fabs
      (map2 fsub
         (map (fun c => div c (Z.of_nat (length y_proba) - sum y))
              (cumsum_from 0 (Table.class0 (fit_table y_proba y bins))))
         (map (fun c => div c (sum y))
              (cumsum_from 0 (Table.class1 (fit_table y_proba y bins))))).
Proof. reflexivity. Qed.

Lemma flip_abs_difference :
  Table.abs_difference (fit_table y_proba (flip_labels y_true) bins)
  = Table.abs_difference (fit_table y_proba y_true bins).
Proof.
  rewrite !abs_difference_column, flip_class0, flip_class1, sum_flip.
  rewrite abs_diff_swap. rewrite <- same_length.
  replace (Z.of_nat (length y_proba) - (Z.of_nat (length y_proba) - sum y_true))%Z
    with (sum y_true) by lia.
  reflexivity.
Qed.

End Flip.

(** X15.  On non-empty arrays of one length, exchanging the two classes
    (label [v] becomes [1 - v]) exchanges
    the attributes [class0] and [class1] and the columns [class0] and
    [class1], and leaves [size], [abs_difference] and [ks] unchanged. *)
Theorem fit_flip_labels (y_proba : list Q) (y_true : list Z) (bins : nat) :
  length y_proba = length y_true ->
  y_proba <> [] ->
  exists r r',
    fit y_proba y_true bins false = inr r
    /\ fit y_proba (flip_labels y_true) bins false = inr r'
    /\ obs r' = obs r /\ class0 r' = class1 r /\ class1 r' = class0 r
    /\ Table.size (table r') = Table.size (table r)
    /\ Table.class0 (table r') = Table.class1 (table r)
    /\ Table.class1 (table r') = Table.class0 (table r)
    /\ Table.abs_difference (table r') = Table.abs_difference (table r)
    /\ ks r' = ks r.
Proof.
  intros Hlen _.
  exists (fit_value y_proba y_true bins), (fit_value y_proba (flip_labels y_true) bins).
  split; [ apply fit_no_round, Hlen | ].
  split; [ apply fit_no_round; unfold flip_labels; rewrite length_map; exact Hlen | ].
  unfold fit_value. cbn [obs class0 class1 ks table].
  rewrite flip_size, flip_class0, flip_class1, (flip_abs_difference _ _ _ Hlen), sum_flip.
  - rewrite <- Hlen. repeat split; try reflexivity; lia.
  - exact Hlen.
Qed.

Lemma fit_flip_labels_witness :
  exists r r',
    fit perfect_proba perfect_true 3 false = inr r
    /\ fit perfect_proba (flip_labels perfect_true) 3 false = inr r'
    /\ obs r' = obs r /\ class0 r' = class1 r /\ class1 r' = class0 r
    /\ Table.size (table r') = Table.size (table r)
    /\ Table.class0 (table r') = Table.class1 (table r)
    /\ Table.class1 (table r') = Table.class0 (table r)
    /\ Table.abs_difference (table r') = Table.abs_difference (table r)
    /\ ks r' = ks r.
Proof.
  apply (fit_flip_labels perfect_proba perfect_true 3);
    [ reflexivity | discriminate ].
Defined.
